(** * Peer-review demo application (src/App.jsx): model and properties

    A shallow embedding of the data-handling code of [App.jsx]: the
    localStorage wrapper [LS], the reviewer auto-assignment performed by
    [createSubmission], the review reconciliation performed by
    [submitReview], the validation done by [ReviewForm], and the
    transition system generated by the event handlers of [App]. *)

From stdpp Require Import base option list gmap strings pretty.
From Stdlib Require Import ZArith Lia.

#[local] Set Warnings "-clear-no-such-hyp".

Open Scope Z_scope.
Open Scope string_scope.
Open Scope list_scope.
Open Scope nat_scope.

(** ** Data model *)

(** [role] and [status] are string tags in the source; only the values
    below are ever written by the application. *)
Inductive Role := teacher | student.
Inductive Status := pending | done.

#[global] Instance Role_eq_dec : EqDecision Role.
Proof. solve_decision. Defined.
#[global] Instance Status_eq_dec : EqDecision Status.
Proof. solve_decision. Defined.

(** The [scores] object of a review: criterion id to number. *)
Abbreviation Scores := (gmap string Z).

Module User.
Record t := mk {
  id : string;
  name : string;
  role : Role;
  email : string }.
End User.

Module Criterion.
Record t := mk {
  id : string;
  title : string;
  maxScore : Z }.
End Criterion.

Module Assignment.
(** [reviewersPerSubmission] is [None] when the property is missing
    from the stored object. *)
Record t := mk {
  id : string;
  title : string;
  desc : string;
  rubric : list Criterion.t;
  createdAt : Z;
  reviewersPerSubmission : option Z }.
End Assignment.

Module Submission.
Record t := mk {
  id : string;
  assignmentId : string;
  authorId : string;
  content : string;
  version : Z;
  createdAt : Z }.
End Submission.

Module Review.
(** [scores] and [comment] are [null] in a placeholder; [assignedAt]
    is absent from a review inserted by [submitReview], [submittedAt]
    from a placeholder. *)
Record t := mk {
  id : string;
  submissionId : string;
  reviewerId : string;
  scores : option Scores;
  comment : option string;
  assignedAt : option Z;
  status : Status;
  submittedAt : option Z }.

(** [{ ...r, scores, comment, status: 'done', submittedAt: now }] *)
Definition complete (r : t) (sc : Scores) (cm : string) (now : Z) : t :=
  {| id := id r;
     submissionId := submissionId r;
     reviewerId := reviewerId r;
     scores := Some sc;
     comment := Some cm;
     assignedAt := assignedAt r;
     status := done;
     submittedAt := Some now |}.

(** [{ id: uid('r'), submissionId, reviewerId, scores, comment,
      status:'done', submittedAt: Date.now() }] *)
Definition inserted (fresh sid rid : string) (sc : Scores) (cm : string)
    (now : Z) : t :=
  {| id := fresh;
     submissionId := sid;
     reviewerId := rid;
     scores := Some sc;
     comment := Some cm;
     assignedAt := None;
     status := done;
     submittedAt := Some now |}.

(** [{ id: uid('ra'), submissionId: s.id, reviewerId: rid, scores: null,
      comment: null, assignedAt: Date.now(), status: 'pending' }] *)
Definition placeholder (fresh sid rid : string) (now : Z) : t :=
  {| id := fresh;
     submissionId := sid;
     reviewerId := rid;
     scores := None;
     comment := None;
     assignedAt := Some now;
     status := pending;
     submittedAt := None |}.
End Review.

(** ** Review reconciliation: [submitReview] *)

(** The predicate handed to [findIndex]:
    [r.submissionId===submissionId && r.reviewerId===reviewerId
     && r.status==='pending']. *)
Definition pendingFor (submissionId reviewerId : string) (r : Review.t) : Prop :=
  Review.submissionId r = submissionId
  ∧ Review.reviewerId r = reviewerId
  ∧ Review.status r = pending.

#[global] Instance pendingFor_dec sid rid r : Decision (pendingFor sid rid r).
Proof. unfold pendingFor. apply _. Defined.

(** The updater passed to [setReviews].  [fresh] is the value [uid('r')]
    returns (read only on the insert branch) and [now] the value of
    [Date.now()]. *)
Definition submitReview (fresh : string) (now : Z)
    (submissionId reviewerId : string) (scores : Scores) (comment : string)
    (prev : list Review.t) : list Review.t :=
  match list_find (pendingFor submissionId reviewerId) prev with
  | Some (idx, r) => <[idx := Review.complete r scores comment now]> prev
  | None =>
      prev ++ [Review.inserted fresh submissionId reviewerId scores comment now]
  end.

(** Rows of the collection for one (submission, reviewer) pair. *)
Definition rowsFor (sid rid : string) (rs : list Review.t) : list Review.t :=
  filter (λ r, Review.submissionId r = sid ∧ Review.reviewerId r = rid) rs.

(** ** Outcomes of a handler

    A call either returns, throws, or is still inside its sampling loop
    when the finite supply of random draws handed to the model is used
    up. *)
Inductive outcome (A : Type) :=
  | Returns (a : A)
  | Throws
  | OutOfDraws.
Arguments Returns {A} a.
Arguments Throws {A}.
Arguments OutOfDraws {A}.

(** Sequencing: the continuation runs only after a normal return. *)
Definition andThen {A B} (m : outcome A) (k : A → outcome B) : outcome B :=
  match m with
  | Returns a => k a
  | Throws => Throws
  | OutOfDraws => OutOfDraws
  end.

(** ** The localStorage wrapper [LS] *)

(** Values that flow through [LS.get]: what [JSON.parse] can produce,
    plus [undefined] (an omitted [fallback] argument). *)
#[warnings="-register-all"]
Inductive jsvalue :=
  | JUndefined
  | JNull
  | JBool (b : bool)
  | JNumber (n : Z)
  | JString (s : string)
  | JArray (items : list jsvalue)
  | JObject (fields : list (string * jsvalue)).

(** [v ?? fallback] *)
Definition nullish (v : jsvalue) : bool :=
  match v with
  | JUndefined | JNull => true
  | _ => false
  end.

Definition coalesce (v fallback : jsvalue) : jsvalue :=
  if nullish v then fallback else v.

(** [try { body } catch { handler }] *)
Definition try_catch {A} (body handler : outcome A) : outcome A :=
  match body with
  | Throws => handler
  | other => other
  end.

Module LS.
Section get.
(** The host's [JSON.parse] on a text: [None] is a thrown
    [SyntaxError]. *)
Context (JSON_parse : string → option jsvalue).

(** [localStorage.getItem(key)]: [null] for an absent key. *)
Definition getItem (storage : gmap string string) (key : string)
  : option string := storage !! key.

(** [JSON.parse(x)] for [x] a string or [null]; the argument is first
    converted to a string, [null] to the text [null]. *)
Definition parseItem (x : option string) : outcome jsvalue :=
  match JSON_parse (default "null" x) with
  | Some v => Returns v
  | None => Throws
  end.

Definition get (storage : gmap string string) (key : string)
    (fallback : jsvalue) : outcome jsvalue :=
  try_catch
    (andThen (parseItem (getItem storage key))
             (λ v, Returns (coalesce v fallback)))
    (Returns fallback).
End get.

(** A parser of the three JSON literal names, enough to run [get]. *)
Definition parse_literal (text : string) : option jsvalue :=
  if decide (text = "null") then Some JNull
  else if decide (text = "true") then Some (JBool true)
  else if decide (text = "false") then Some (JBool false)
  else None.
Section set.
(** The host's [JSON.stringify]: [None] when it returns [undefined]
    instead of a text, as it does for [undefined] itself. *)
Context (JSON_stringify : jsvalue → option string).

(** [localStorage.setItem(key, x)]: [x] is converted to a string, so
    [undefined] is stored as the text [undefined]. *)
Definition setItem (storage : gmap string string) (key : string)
    (x : option string) : gmap string string :=
  <[key := default "undefined" x]> storage.

Definition set (storage : gmap string string) (key : string)
    (val : jsvalue) : gmap string string :=
  setItem storage key (JSON_stringify val).
End set.
End LS.

(** ** Application state *)

Record AppState := mkState {
  assignments : list Assignment.t;
  submissions : list Submission.t;
  reviews : list Review.t }.

Definition initial : AppState := mkState [] [] [].

Definition findAssignment (id : string) (l : list Assignment.t)
  : option Assignment.t :=
  snd <$> list_find (λ a, Assignment.id a = id) l.

Definition findSubmission (id : string) (l : list Submission.t)
  : option Submission.t :=
  snd <$> list_find (λ s, Submission.id s = id) l.

(** ** Teacher: [createAssignment] *)

(** The object built by [CreateAssignment]'s [submit]. *)
Definition newAssignment (fresh title desc : string)
    (rubric : list Criterion.t) (now : Z) : Assignment.t :=
  Assignment.mk fresh title desc rubric now (Some 2%Z).

Definition createAssignment (a : Assignment.t) (st : AppState) : AppState :=
  mkState (assignments st ++ [a]) (submissions st) (reviews st).

(** ** Student: [createSubmission] and reviewer auto-assignment *)

(** The object built by [SubmitForm]'s [submit]. *)
Definition newSubmission (fresh : string) (a : Assignment.t)
    (currentUser : User.t) (content : string) (now : Z) : Submission.t :=
  Submission.mk fresh (Assignment.id a) (User.id currentUser) content 1%Z now.

(** [users.filter(u=>u.role==='student' && u.id !== s.authorId)] *)
Definition eligible (users : list User.t) (s : Submission.t) : list User.t :=
  filter (λ u, User.role u = student ∧ User.id u ≠ Submission.authorId s) users.

(** [x || 2] for [x] a number or [undefined]: zero and [undefined] are
    the falsy ones. *)
Definition orTwo (x : option Z) : Z :=
  match x with
  | Some n => if decide (n = 0%Z) then 2%Z else n
  | None => 2%Z
  end.

(** [(assignments.find(a=>a.id===s.assignmentId)?.reviewersPerSubmission) || 2] *)
Definition reviewersNeeded (l : list Assignment.t) (s : Submission.t) : Z :=
  orTwo (findAssignment (Submission.assignmentId s) l
         ≫= Assignment.reviewersPerSubmission).

(** [Math.min(reviewersNeeded, students.length)] *)
Definition target (needed : Z) (students : list User.t) : Z :=
  Z.min needed (Z.of_nat (length students)).

(** The [while] loop.  Each element [d] of [draws] stands for one value
    of [Math.random()]; the index [Math.floor(Math.random()*students.length)]
    it yields is [d mod length students], which ranges over exactly the
    indices below [students.length].  Reading [.id] of a missing element
    throws. *)
Fixpoint sample (students : list User.t) (goal : Z) (draws : list nat)
    (chosen : list string) : outcome (list string) :=
  if decide (Z.of_nat (length chosen) < goal)%Z then
    match draws with
    | [] => OutOfDraws
    | d :: rest =>
        match students !! (d mod length students) with
        | None => Throws
        | Some pick =>
            sample students goal rest
              (if decide (User.id pick ∈ chosen) then chosen
               else chosen ++ [User.id pick])
        end
    end
  else Returns chosen.

(** [chosen.map(rid => ({ id: uid('ra'), ... }))]; [uids i] and [clock i]
    are the values of [uid('ra')] and [Date.now()] for the [i]-th one. *)
Definition placeholders (uids : nat → string) (clock : nat → Z)
    (s : Submission.t) (chosen : list string) : list Review.t :=
  imap (λ i rid, Review.placeholder (uids i) (Submission.id s) rid (clock i))
       chosen.

(** The reviewer ids chosen for [s]. *)
Definition chooseReviewers (users : list User.t) (l : list Assignment.t)
    (s : Submission.t) (draws : list nat) : outcome (list string) :=
  let students := eligible users s in
  sample students (target (reviewersNeeded l s) students) draws [].

Definition createSubmission (users : list User.t) (s : Submission.t)
    (draws : list nat) (uids : nat → string) (clock : nat → Z)
    (st : AppState) : outcome AppState :=
  andThen (chooseReviewers users (assignments st) s draws)
    (λ chosen,
       Returns (mkState (assignments st)
                        (submissions st ++ [s])
                        (reviews st ++ placeholders uids clock s chosen))).

(** The reviews a run of [createSubmission] appended. *)
Definition created (st st' : AppState) : list Review.t :=
  drop (length (reviews st)) (reviews st').

(** A supply of draws in which every index of the pool comes up. *)
Definition covers (students : list User.t) (draws : list nat) : Prop :=
  ∀ i, i < length students → ∃ d, d ∈ draws ∧ d mod length students = i.

(** ** [ReviewForm] *)

(** Initial [scores] state: [assignment.rubric.forEach(c => s[c.id] = 0)]. *)
Definition initScores (rubric : list Criterion.t) : Scores :=
  foldl (λ s c, <[Criterion.id c := 0%Z]> s) ∅ rubric.

(** [setScores(s=>({ ...s, [cid]: Number(val) }))] *)
Definition setScore (cid : string) (val : Z) (s : Scores) : Scores :=
  <[cid := val]> s.

(** No criterion [c] of the rubric has [scores[c.id] == null]. *)
Definition filled (rubric : list Criterion.t) (sc : Scores) : Prop :=
  Forall (λ c, is_Some (sc !! Criterion.id c)) rubric.

#[global] Instance filled_dec rubric sc : Decision (filled rubric sc).
Proof. unfold filled. apply _. Defined.

(** [submit]: [None] is the alert, otherwise the payload handed to
    [onSubmitReview]. *)
Definition reviewFormSubmit (a : Assignment.t) (sc : Scores) (cm : string)
  : option (Scores * string) :=
  if decide (filled (Assignment.rubric a) sc) then Some (sc, cm) else None.

(** States of the form's [scores]: the initial one, changed by the
    number inputs rendered for the criteria of the rubric. *)
Inductive formScores (rubric : list Criterion.t) : Scores → Prop :=
  | form_init : formScores rubric (initScores rubric)
  | form_set c val sc :
      c ∈ rubric → formScores rubric sc →
      formScores rubric (setScore (Criterion.id c) val sc).

(** ** The handlers of [App] as a transition system

    One step per user-interface event that changes a collection.  The
    [users] list is re-read from storage at every render, so each step
    takes its own.  [uid] is taken to return an identifier not yet used
    by a submission. *)
Definition setReviews (f : list Review.t → list Review.t) (st : AppState)
  : AppState :=
  mkState (assignments st) (submissions st) (f (reviews st)).

Inductive step (st : AppState) : AppState → Prop :=
  | step_createAssignment fresh title desc rubric now :
      step st (createAssignment (newAssignment fresh title desc rubric now) st)
  | step_createSubmission users a currentUser fresh content now
        draws uids clock st' :
      (* a [SubmitForm] is rendered for each assignment of the state *)
      a ∈ assignments st →
      fresh ∉ Submission.id <$> submissions st →
      createSubmission users (newSubmission fresh a currentUser content now)
        draws uids clock st = Returns st' →
      step st st'
  | step_submitReview r sub a sc cm payload fresh now :
      (* a [ReviewForm] is rendered for each pending review listed *)
      r ∈ reviews st →
      Review.status r = pending →
      findSubmission (Review.submissionId r) (submissions st) = Some sub →
      findAssignment (Submission.assignmentId sub) (assignments st) = Some a →
      formScores (Assignment.rubric a) sc →
      reviewFormSubmit a sc cm = Some payload →
      step st
        (setReviews
           (submitReview fresh now (Review.submissionId r) (Review.reviewerId r)
              payload.1 payload.2)
           st).

Definition reachable : AppState → Prop := rtc step initial.

(** The submission and assignment a review belongs to, looked up as the
    views do. *)
Definition assignmentOf (st : AppState) (r : Review.t) : option Assignment.t :=
  sub ← findSubmission (Review.submissionId r) (submissions st);
  findAssignment (Submission.assignmentId sub) (assignments st).

(** ** State invariants *)

(** Every review refers to a stored submission, every submission to a
    stored assignment. *)
Definition linked (st : AppState) : Prop :=
  (∀ r, r ∈ reviews st →
     Review.submissionId r ∈ Submission.id <$> submissions st)
  ∧ (∀ s, s ∈ submissions st →
       is_Some (findAssignment (Submission.assignmentId s) (assignments st))).

Definition noSelfReview (st : AppState) : Prop :=
  ∀ r s, r ∈ reviews st → s ∈ submissions st →
    Submission.id s = Review.submissionId r →
    Review.reviewerId r ≠ Submission.authorId s.

Definition doneScored (st : AppState) : Prop :=
  ∀ r, r ∈ reviews st → Review.status r = done →
    ∃ a sc, assignmentOf st r = Some a
            ∧ Review.scores r = Some sc
            ∧ filled (Assignment.rubric a) sc.

Definition invariant (st : AppState) : Prop :=
  linked st ∧ noSelfReview st ∧ doneScored st.

(** ** Seeding: [seed] *)

(** [!v] is true for the falsy values. *)
Definition truthy (v : jsvalue) : bool :=
  match v with
  | JUndefined | JNull => false
  | JBool b => b
  | JNumber n => negb (n =? 0)%Z
  | JString s => negb (String.eqb s "")
  | JArray _ | JObject _ => true
  end.

(** The array literal [users] of [seed]. *)
Definition seedUsers : jsvalue :=
  JArray
    [ JObject [("id", JString "t1"); ("name", JString "Teacher Alice");
               ("role", JString "teacher");
               ("email", JString "alice@school.com")];
      JObject [("id", JString "s1"); ("name", JString "Student Rohini");
               ("role", JString "student");
               ("email", JString "rohini@example.com")];
      JObject [("id", JString "s2"); ("name", JString "Student Ravi");
               ("role", JString "student");
               ("email", JString "ravi@example.com")];
      JObject [("id", JString "s3"); ("name", JString "Student Yaswanth");
               ("role", JString "student");
               ("email", JString "yaswanth@example.com")] ].

(** The keys [seed] looks at. *)
Definition seedKeys : list string :=
  ["users"; "assignments"; "submissions"; "reviews"].

Section seeding.
Context (JSON_parse : string → option jsvalue)
        (JSON_stringify : jsvalue → option string).

(** The value [LS.get(key)] has when [seed] tests it. *)
Definition seen (storage : gmap string string) (key : string) : jsvalue :=
  match JSON_parse (default "null" (storage !! key)) with
  | Some v => coalesce v JUndefined
  | None => JUndefined
  end.

(** [if (!LS.get(key)) LS.set(key, val)] *)
Definition seedEntry (key : string) (val : jsvalue)
    (storage : gmap string string) : outcome (gmap string string) :=
  andThen (LS.get JSON_parse storage key JUndefined)
    (λ v, Returns (if truthy v then storage
                   else LS.set JSON_stringify storage key val)).

Definition seed (storage : gmap string string)
  : outcome (gmap string string) :=
  andThen (seedEntry "users" seedUsers storage) (λ s1,
  andThen (seedEntry "assignments" (JArray []) s1) (λ s2,
  andThen (seedEntry "submissions" (JArray []) s2) (λ s3,
  seedEntry "reviews" (JArray []) s3))).
End seeding.

(** ** Identifiers: [uid] *)

(** [p + '_' + Math.random().toString(36).slice(2,9)]; [random] is the
    sliced text. *)
Definition uid (p : string) (random : string) : string :=
  p +:+ "_" +:+ random.

(** The prefixes [uid] is called with: criteria, assignments,
    submissions, placeholders and inserted reviews. *)
Definition uidPrefixes : list string := ["c"; "a"; "sub"; "ra"; "r"].

(** ** [Login] *)

(** Initial selection: [users[0]?.id || '']. *)
Definition loginInitial (users : list User.t) : string :=
  match head users with
  | Some u => if decide (User.id u = "") then "" else User.id u
  | None => ""
  end.

(** The argument of [onLogin]: [users.find(u=>u.id===sel)], [None] being
    [undefined], on which [App] keeps showing the login card. *)
Definition loginContinue (users : list User.t) (sel : string)
  : option User.t :=
  snd <$> list_find (λ u, User.id u = sel) users.

(** ** [RubricEditor] *)

(** [Number(e.target.value) || 1] for the value read from the number
    input, [None] being [NaN]. *)
Definition orOne (x : option Z) : Z :=
  match x with
  | Some n => if decide (n = 0%Z) then 1%Z else n
  | None => 1%Z
  end.

(** The two [key]s [updateCriterion] is called with, and the value. *)
Inductive criterionEdit :=
  | EditTitle (val : string)
  | EditMaxScore (val : Z).

(** [{ ...c, [key]: val }] *)
Definition applyEdit (e : criterionEdit) (c : Criterion.t) : Criterion.t :=
  match e with
  | EditTitle val => Criterion.mk (Criterion.id c) val (Criterion.maxScore c)
  | EditMaxScore val => Criterion.mk (Criterion.id c) (Criterion.title c) val
  end.

(** [updateCriterion(idx, key, val)].  Past the end of the array the
    source would write an object that has only [key], which is not a
    criterion: that result is [None] here.  The rows rendered call it
    with their own index only. *)
Definition updateCriterion (idx : nat) (e : criterionEdit)
    (rubric : list Criterion.t) : option (list Criterion.t) :=
  c ← rubric !! idx; Some (<[idx := applyEdit e c]> rubric).

(** [add]: [[...rubric, { id: uid('c'), title: 'New criterion', maxScore: 5 }]] *)
Definition addCriterion (fresh : string) (rubric : list Criterion.t)
  : list Criterion.t :=
  rubric ++ [Criterion.mk fresh "New criterion" 5%Z].

(** [remove]: [copy.splice(idx,1)], which removes nothing past the end. *)
Definition removeCriterion (idx : nat) (rubric : list Criterion.t)
  : list Criterion.t :=
  delete idx rubric.

(** The initial [rubric] state of [CreateAssignment]. *)
Definition initialRubric (id1 id2 : string) : list Criterion.t :=
  [Criterion.mk id1 "Quality" 5%Z; Criterion.mk id2 "Completeness" 5%Z].

(** Rubrics the editor can show: the initial one, changed by its inputs
    and buttons.  [uid] is taken to return an id no criterion shown has. *)
Inductive editing (id1 id2 : string) : list Criterion.t → Prop :=
  | editing_initial : editing id1 id2 (initialRubric id1 id2)
  | editing_title idx val rubric rubric' :
      editing id1 id2 rubric →
      updateCriterion idx (EditTitle val) rubric = Some rubric' →
      editing id1 id2 rubric'
  | editing_maxScore idx raw rubric rubric' :
      editing id1 id2 rubric →
      updateCriterion idx (EditMaxScore (orOne raw)) rubric = Some rubric' →
      editing id1 id2 rubric'
  | editing_add fresh rubric :
      editing id1 id2 rubric →
      fresh ∉ Criterion.id <$> rubric →
      editing id1 id2 (addCriterion fresh rubric)
  | editing_remove idx rubric :
      editing id1 id2 rubric →
      editing id1 id2 (removeCriterion idx rubric).

(** ** Derived views *)

(** [submissions.filter(s=> s.authorId === user?.id)]; with nobody
    logged in [user?.id] is [undefined]. *)
Definition mySubmissions (user : option User.t) (l : list Submission.t)
  : list Submission.t :=
  filter (λ s, User.id <$> user = Some (Submission.authorId s)) l.

(** [reviews.filter(r=> r.reviewerId === user?.id)] *)
Definition myAssignedReviews (user : option User.t) (l : list Review.t)
  : list Review.t :=
  filter (λ r, User.id <$> user = Some (Review.reviewerId r)) l.

(** [reviews.filter(r=> r.submissionId===s.id).length] *)
Definition reviewsTotal (sid : string) (l : list Review.t) : nat :=
  length (filter (λ r, Review.submissionId r = sid) l).

(** [reviews.filter(r=> r.submissionId===s.id && r.status==='done').length] *)
Definition reviewsDone (sid : string) (l : list Review.t) : nat :=
  length (filter (λ r, Review.submissionId r = sid ∧ Review.status r = done) l).

(** ** Further state invariants *)

(** The pair a review is looked up by. *)
Definition pairOf (r : Review.t) : string * string :=
  (Review.submissionId r, Review.reviewerId r).

(** Fields that go with each status. *)
Definition coherent (r : Review.t) : Prop :=
  is_Some (Review.assignedAt r)
  ∧ match Review.status r with
    | pending =>
        Review.scores r = None ∧ Review.comment r = None
        ∧ Review.submittedAt r = None
    | done =>
        is_Some (Review.scores r) ∧ is_Some (Review.comment r)
        ∧ is_Some (Review.submittedAt r)
    end.

Definition shaped (st : AppState) : Prop :=
  (∀ a, a ∈ assignments st →
     Assignment.reviewersPerSubmission a = Some 2%Z)
  ∧ NoDup (pairOf <$> reviews st)
  ∧ Forall coherent (reviews st)
  ∧ NoDup (Submission.id <$> submissions st).

(** ** Sample data

    The users written by [seed], and a small state used to run the
    handlers on concrete inputs. *)
Module Sample.
Definition users : list User.t :=
  [ User.mk "t1" "Teacher Alice" teacher "alice@school.com";
    User.mk "s1" "Student Rohini" student "rohini@example.com";
    User.mk "s2" "Student Ravi" student "ravi@example.com";
    User.mk "s3" "Student Yaswanth" student "yaswanth@example.com" ].

Definition rubric : list Criterion.t :=
  [ Criterion.mk "c1" "Quality" 5%Z; Criterion.mk "c2" "Completeness" 5%Z ].

Definition essay : Assignment.t :=
  newAssignment "a_1" "Essay" "Write an essay" rubric 100%Z.

Definition work : Submission.t :=
  newSubmission "sub_1" essay (User.mk "s1" "Student Rohini" student
                                 "rohini@example.com") "my essay" 200%Z.

Definition marks : Scores := {["c1" := 4%Z; "c2" := 5%Z]}.

(** Two placeholders for [work], for reviewers s2 and s3. *)
Definition assigned : list Review.t :=
  [ Review.placeholder "ra_1" "sub_1" "s2" 200%Z;
    Review.placeholder "ra_2" "sub_1" "s3" 200%Z ].

(** Two pending rows for the same pair, after one for another reviewer. *)
Definition doubled : list Review.t :=
  [ Review.placeholder "ra_1" "sub_1" "s2" 200%Z;
    Review.placeholder "ra_2" "sub_1" "s3" 200%Z;
    Review.placeholder "ra_3" "sub_1" "s3" 300%Z ].

Definition uids (i : nat) : string := "ra_" +:+ pretty i.
Definition clock (i : nat) : Z := 200%Z.

(** A session: the teacher creates [essay], s1 submits [work], the
    draws pick s3 then s2, and s3 fills in and submits the review. *)
Definition submitted : AppState :=
  mkState [essay] [work]
    [ Review.placeholder "ra_0" "sub_1" "s3" 200%Z;
      Review.placeholder "ra_1" "sub_1" "s2" 200%Z ].

Definition typed : Scores :=
  setScore "c2" 5%Z (setScore "c1" 4%Z (initScores rubric)).

Definition reviewed : AppState :=
  setReviews (submitReview "r_7" 300%Z "sub_1" "s3" typed "well done")
    submitted.

Definition review_done : Review.t :=
  Review.complete (Review.placeholder "ra_0" "sub_1" "s3" 200%Z) typed
    "well done" 300%Z.

(** The session goes on: s2 submits too, and the draws pick s1 then s3,
    so that s1 and s2 each have a submission and a review to write. *)
Definition ravi : User.t :=
  User.mk "s2" "Student Ravi" student "ravi@example.com".

Definition rohini : User.t :=
  User.mk "s1" "Student Rohini" student "rohini@example.com".

Definition again : Submission.t :=
  newSubmission "sub_2" essay ravi "second essay" 400%Z.

Definition second : AppState :=
  mkState [essay] [work; again]
    (reviews reviewed
     ++ [ Review.placeholder "ra_0" "sub_2" "s1" 200%Z;
          Review.placeholder "ra_1" "sub_2" "s3" 200%Z ]).
End Sample.

(** A table of the texts the examples store, standing in for the host's
    [JSON.stringify] and [JSON.parse] when [LS] and [seed] are run. *)
Module Table.
Definition stringify (v : jsvalue) : option string :=
  match v with
  | JUndefined => None
  | JNull => Some "null"
  | JBool true => Some "true"
  | JBool false => Some "false"
  | JArray [] => Some "[]"
  | JArray (_ :: _) => Some "[seed users]"
  | _ => Some "{}"
  end.

Definition parse (text : string) : option jsvalue :=
  if decide (text = "[]") then Some (JArray [])
  else if decide (text = "[seed users]") then Some seedUsers
  else LS.parse_literal text.
End Table.

(** ** Facts about [submitReview] shared by the theorems below *)

Section submitReview_facts.
Context (fresh : string) (now : Z) (sid rid : string)
        (sc : Scores) (cm : string).

Lemma submitReview_found prev idx r :
  list_find (pendingFor sid rid) prev = Some (idx, r) →
  submitReview fresh now sid rid sc cm prev
  = <[idx := Review.complete r sc cm now]> prev.
Proof. intros H. unfold submitReview. by rewrite H. Qed.

Lemma submitReview_missing prev :
  list_find (pendingFor sid rid) prev = None →
  submitReview fresh now sid rid sc cm prev
  = prev ++ [Review.inserted fresh sid rid sc cm now].
Proof. intros H. unfold submitReview. by rewrite H. Qed.

Lemma complete_not_pending r sid' rid' :
  ¬ pendingFor sid' rid' (Review.complete r sc cm now).
Proof. intros (_ & _ & H). discriminate H. Qed.

Lemma inserted_not_pending sid' rid' :
  ¬ pendingFor sid' rid' (Review.inserted fresh sid rid sc cm now).
Proof. intros (_ & _ & H). discriminate H. Qed.
End submitReview_facts.

Lemma filter_insert_length {A} (P : A → Prop) `{!∀ x, Decision (P x)}
    (l : list A) i x y :
  l !! i = Some x → (P x ↔ P y) →
  length (filter P (<[i:=y]> l)) = length (filter P l).
Proof.
  revert i. induction l as [|z l IH]; intros [|i] Hi Hxy; simplify_eq/=.
  - rewrite !filter_cons. repeat case_decide; tauto || done.
  - rewrite !filter_cons. specialize (IH _ Hi Hxy).
    case_decide; simpl; by rewrite IH.
Qed.

Lemma rowsFor_complete sid rid prev idx r sc cm now :
  prev !! idx = Some r →
  length (rowsFor sid rid (<[idx := Review.complete r sc cm now]> prev))
  = length (rowsFor sid rid prev).
Proof. intros H. unfold rowsFor. by apply (filter_insert_length _ _ _ r). Qed.

(** After the only pending match was completed, none is left. *)
Lemma no_pending_after_update sid rid prev idx r sc cm now :
  list_find (pendingFor sid rid) prev = Some (idx, r) →
  (∀ j rj, j ≠ idx → prev !! j = Some rj → ¬ pendingFor sid rid rj) →
  list_find (pendingFor sid rid) (<[idx := Review.complete r sc cm now]> prev)
  = None.
Proof.
  intros Hf Huniq. apply list_find_None, Forall_lookup_2.
  intros j rj Hj. destruct (decide (j = idx)) as [->|Hne].
  - apply list_find_Some in Hf as (Hidx & _ & _).
    rewrite list_lookup_insert_eq in Hj by eauto using lookup_lt_Some.
    simplify_eq. apply complete_not_pending.
  - rewrite list_lookup_insert_ne in Hj by done. eauto.
Qed.

(** ** Review reconciliation: the update branch *)

(** C5. When [submitReview] finds a review matching the submission id, the
    reviewer id and status pending, it rewrites that one record in place:
    scores, comment, status done and submittedAt are set; the record's id,
    submissionId, reviewerId and assignedAt stay; every other position of
    the collection and its length are unchanged. *)
Theorem submitReview_updates_in_place fresh now sid rid sc cm prev r0 :
  r0 ∈ prev → pendingFor sid rid r0 →
  ∃ idx r r',
    prev !! idx = Some r ∧ pendingFor sid rid r
    ∧ submitReview fresh now sid rid sc cm prev !! idx = Some r'
    ∧ Review.scores r' = Some sc
    ∧ Review.comment r' = Some cm
    ∧ Review.status r' = done
    ∧ Review.submittedAt r' = Some now
    ∧ Review.id r' = Review.id r
    ∧ Review.submissionId r' = Review.submissionId r
    ∧ Review.reviewerId r' = Review.reviewerId r
    ∧ Review.assignedAt r' = Review.assignedAt r
    ∧ (∀ j, j ≠ idx →
         submitReview fresh now sid rid sc cm prev !! j = prev !! j)
    ∧ length (submitReview fresh now sid rid sc cm prev) = length prev.
Proof.
  intros Hin Hp.
  destruct (list_find_elem_of (pendingFor sid rid) prev r0 Hin Hp)
    as [[idx r] Hf].
  rewrite (submitReview_found _ _ _ _ _ _ _ _ _ Hf).
  apply list_find_Some in Hf as (Hidx & Hpr & _).
  exists idx, r, (Review.complete r sc cm now).
  split_and!; try done.
  - apply list_lookup_insert_eq. eauto using lookup_lt_Some.
  - intros j Hj. by apply list_lookup_insert_ne.
  - apply length_insert.
Qed.

Lemma submitReview_updates_in_place_witness :
  ∃ idx r r',
    Sample.assigned !! idx = Some r ∧ pendingFor "sub_1" "s3" r
    ∧ submitReview "r_9" 300%Z "sub_1" "s3" Sample.marks "ok" Sample.assigned
        !! idx = Some r'
    ∧ Review.scores r' = Some Sample.marks
    ∧ Review.comment r' = Some "ok"
    ∧ Review.status r' = done
    ∧ Review.submittedAt r' = Some 300%Z
    ∧ Review.id r' = Review.id r
    ∧ Review.submissionId r' = Review.submissionId r
    ∧ Review.reviewerId r' = Review.reviewerId r
    ∧ Review.assignedAt r' = Review.assignedAt r
    ∧ (∀ j, j ≠ idx →
         submitReview "r_9" 300%Z "sub_1" "s3" Sample.marks "ok" Sample.assigned
           !! j = Sample.assigned !! j)
    ∧ length (submitReview "r_9" 300%Z "sub_1" "s3" Sample.marks "ok"
                Sample.assigned)
      = length Sample.assigned.
Proof.
  apply (submitReview_updates_in_place "r_9" 300%Z "sub_1" "s3" Sample.marks
           "ok" Sample.assigned (Review.placeholder "ra_2" "sub_1" "s3" 200%Z)).
  - apply list_elem_of_In. simpl. right. left. reflexivity.
  - unfold pendingFor. simpl. repeat split; reflexivity.
Defined.

(** ** Review reconciliation: the insert branch *)



(** ** Review reconciliation: several pending rows for one pair *)

(** C10. When the collection holds more than one pending review for the
    same (submission, reviewer) pair, [submitReview] completes the first
    of them in collection order only: that record gets the scores, the
    comment, status done and submittedAt and so differs from what it was;
    every other record, and so every later pending match, is left as it
    was and is still pending. *)
Theorem submitReview_first_match_only fresh now sid rid sc cm prev i j ri rj :
  i < j →
  prev !! i = Some ri → pendingFor sid rid ri →
  prev !! j = Some rj → pendingFor sid rid rj →
  ∃ idx r,
    prev !! idx = Some r ∧ pendingFor sid rid r
    ∧ (∀ k rk, k < idx → prev !! k = Some rk → ¬ pendingFor sid rid rk)
    ∧ submitReview fresh now sid rid sc cm prev !! idx
      = Some (Review.complete r sc cm now)
    ∧ (∀ k rk, idx < k → prev !! k = Some rk → pendingFor sid rid rk →
         submitReview fresh now sid rid sc cm prev !! k = Some rk
         ∧ Review.status rk = pending)
    ∧ submitReview fresh now sid rid sc cm prev !! j = Some rj
    ∧ Review.status rj = pending
    ∧ idx ≤ i
    ∧ (∃ r',
         submitReview fresh now sid rid sc cm prev !! idx = Some r'
         ∧ r' ≠ r
         ∧ Review.status r' = done
         ∧ Review.scores r' = Some sc
         ∧ Review.comment r' = Some cm
         ∧ Review.submittedAt r' = Some now
         ∧ Review.id r' = Review.id r
         ∧ Review.submissionId r' = sid
         ∧ Review.reviewerId r' = rid
         ∧ Review.assignedAt r' = Review.assignedAt r)
    ∧ (∀ k, k ≠ idx →
         submitReview fresh now sid rid sc cm prev !! k = prev !! k)
    ∧ length (submitReview fresh now sid rid sc cm prev) = length prev.
Proof.
  intros Hij Hi Hpi Hj Hpj.
  assert (ri ∈ prev) as Hin by (apply list_elem_of_lookup; eauto).
  destruct (list_find_elem_of (pendingFor sid rid) prev ri Hin Hpi)
    as [[idx r] Hf].
  rewrite (submitReview_found _ _ _ _ _ _ _ _ _ Hf).
  apply list_find_Some in Hf as (Hidx & Hpr & Hfirst).
  assert (idx ≤ i) as Hle.
  { destruct (decide (idx ≤ i)) as [|Hgt]; [done|].
    exfalso. apply (Hfirst i ri); [done | lia | done]. }
  assert (<[idx := Review.complete r sc cm now]> prev !! idx
          = Some (Review.complete r sc cm now)) as Hnew.
  { apply list_lookup_insert_eq. eauto using lookup_lt_Some. }
  exists idx, r.
  split; [done|]. split; [done|].
  split. { intros k rk Hk Hrk. by apply (Hfirst k rk). }
  split; [exact Hnew|].
  split.
  { intros k rk Hk Hrk (_ & _ & Hst). split; [|done].
    rewrite list_lookup_insert_ne by lia. done. }
  split. { rewrite list_lookup_insert_ne by lia. done. }
  split. { by destruct Hpj as (_ & _ & ?). }
  split; [done|].
  split.
  { exists (Review.complete r sc cm now).
    destruct Hpr as (Hsid & Hrid & Hst).
    split; [exact Hnew|].
    split. { intros Heq. rewrite <- Heq in Hst. discriminate Hst. }
    simpl. by rewrite Hsid, Hrid. }
  split.
  - intros k Hk. by apply list_lookup_insert_ne.
  - apply length_insert.
Qed.

Lemma submitReview_first_match_only_witness :
  ∃ idx r,
    Sample.doubled !! idx = Some r ∧ pendingFor "sub_1" "s3" r
    ∧ (∀ k rk, k < idx → Sample.doubled !! k = Some rk →
         ¬ pendingFor "sub_1" "s3" rk)
    ∧ submitReview "r_9" 400%Z "sub_1" "s3" Sample.marks "ok" Sample.doubled
        !! idx = Some (Review.complete r Sample.marks "ok" 400%Z)
    ∧ (∀ k rk, idx < k → Sample.doubled !! k = Some rk →
         pendingFor "sub_1" "s3" rk →
         submitReview "r_9" 400%Z "sub_1" "s3" Sample.marks "ok"
           Sample.doubled !! k = Some rk
         ∧ Review.status rk = pending)
    ∧ submitReview "r_9" 400%Z "sub_1" "s3" Sample.marks "ok" Sample.doubled
        !! 2 = Some (Review.placeholder "ra_3" "sub_1" "s3" 300%Z)
    ∧ Review.status (Review.placeholder "ra_3" "sub_1" "s3" 300%Z) = pending
    ∧ idx ≤ 1
    ∧ (∃ r',
         submitReview "r_9" 400%Z "sub_1" "s3" Sample.marks "ok" Sample.doubled
           !! idx = Some r'
         ∧ r' ≠ r
         ∧ Review.status r' = done
         ∧ Review.scores r' = Some Sample.marks
         ∧ Review.comment r' = Some "ok"
         ∧ Review.submittedAt r' = Some 400%Z
         ∧ Review.id r' = Review.id r
         ∧ Review.submissionId r' = "sub_1"
         ∧ Review.reviewerId r' = "s3"
         ∧ Review.assignedAt r' = Review.assignedAt r)
    ∧ (∀ k, k ≠ idx →
         submitReview "r_9" 400%Z "sub_1" "s3" Sample.marks "ok" Sample.doubled
           !! k = Sample.doubled !! k)
    ∧ length (submitReview "r_9" 400%Z "sub_1" "s3" Sample.marks "ok"
                Sample.doubled) = length Sample.doubled.
Proof.
  apply (submitReview_first_match_only "r_9" 400%Z "sub_1" "s3" Sample.marks
           "ok" Sample.doubled 1 2
           (Review.placeholder "ra_2" "sub_1" "s3" 200%Z)
           (Review.placeholder "ra_3" "sub_1" "s3" 300%Z)).
  - lia.
  - reflexivity.
  - unfold pendingFor. simpl. repeat split; reflexivity.
  - reflexivity.
  - unfold pendingFor. simpl. repeat split; reflexivity.
Defined.

(** The run of the sample with two pending rows for one pair: the first
    is completed, the second is as it was. *)
Example submitReview_doubled_runs :
  submitReview "r_9" 400%Z "sub_1" "s3" Sample.marks "ok" Sample.doubled
  = [ Review.placeholder "ra_1" "sub_1" "s2" 200%Z;
      Review.complete (Review.placeholder "ra_2" "sub_1" "s3" 200%Z)
        Sample.marks "ok" 400%Z;
      Review.placeholder "ra_3" "sub_1" "s3" 300%Z ]
  ∧ Review.status
      (Review.complete (Review.placeholder "ra_2" "sub_1" "s3" 200%Z)
         Sample.marks "ok" 400%Z) = done.
Proof. split; reflexivity. Qed.

(** ** Review reconciliation: calling twice *)

(** C2. Let the collection hold one pending placeholder for a (submission,
    reviewer) pair.  A first [submitReview] for the pair turns it to done;
    a second call for the same pair finds no pending placeholder, takes
    the insert branch and appends a second row for the pair: the
    operation is not idempotent. *)
Theorem submitReview_twice_adds_row f1 n1 sc1 cm1 f2 n2 sc2 cm2
    sid rid prev idx r :
  prev !! idx = Some r → pendingFor sid rid r →
  (∀ j rj, j ≠ idx → prev !! j = Some rj → ¬ pendingFor sid rid rj) →
  let once := submitReview f1 n1 sid rid sc1 cm1 prev in
  let twice := submitReview f2 n2 sid rid sc2 cm2 once in
  once = <[idx := Review.complete r sc1 cm1 n1]> prev
  ∧ list_find (pendingFor sid rid) once = None
  ∧ twice = once ++ [Review.inserted f2 sid rid sc2 cm2 n2]
  ∧ length twice = S (length once)
  ∧ length (rowsFor sid rid once) = length (rowsFor sid rid prev)
  ∧ length (rowsFor sid rid twice) = S (length (rowsFor sid rid once))
  ∧ twice ≠ once.
Proof.
  intros Hidx Hp Huniq once twice.
  assert (list_find (pendingFor sid rid) prev = Some (idx, r)) as Hf.
  { apply list_find_Some. split_and!; [done..|].
    intros j y Hj Hlt. apply (Huniq j y); [lia | done]. }
  assert (once = <[idx := Review.complete r sc1 cm1 n1]> prev) as Honce.
  { subst once. by apply submitReview_found. }
  assert (list_find (pendingFor sid rid) once = None) as Hnone.
  { rewrite Honce. by apply no_pending_after_update. }
  assert (twice = once ++ [Review.inserted f2 sid rid sc2 cm2 n2]) as Htwice.
  { subst twice. by apply submitReview_missing. }
  split_and!; [done | done | done | | | |].
  - rewrite Htwice, length_app. simpl. lia.
  - rewrite Honce. by apply rowsFor_complete.
  - rewrite Htwice. unfold rowsFor. rewrite filter_app, length_app.
    rewrite filter_cons_True by done. simpl. lia.
  - rewrite Htwice. intros Heq.
    apply (f_equal length) in Heq. rewrite length_app in Heq.
    simpl in Heq. lia.
Qed.

Lemma submitReview_twice_adds_row_witness :
  let once := submitReview "r_8" 300%Z "sub_1" "s3" Sample.marks "ok"
                Sample.assigned in
  let twice := submitReview "r_9" 400%Z "sub_1" "s3" Sample.marks "again"
                 once in
  once = <[1 := Review.complete (Review.placeholder "ra_2" "sub_1" "s3" 200%Z)
                  Sample.marks "ok" 300%Z]> Sample.assigned
  ∧ list_find (pendingFor "sub_1" "s3") once = None
  ∧ twice = once ++ [Review.inserted "r_9" "sub_1" "s3" Sample.marks "again"
                       400%Z]
  ∧ length twice = S (length once)
  ∧ length (rowsFor "sub_1" "s3" once)
    = length (rowsFor "sub_1" "s3" Sample.assigned)
  ∧ length (rowsFor "sub_1" "s3" twice)
    = S (length (rowsFor "sub_1" "s3" once))
  ∧ twice ≠ once.
Proof.
  apply (submitReview_twice_adds_row "r_8" 300%Z Sample.marks "ok"
           "r_9" 400%Z Sample.marks "again" "sub_1" "s3" Sample.assigned 1
           (Review.placeholder "ra_2" "sub_1" "s3" 200%Z)).
  - reflexivity.
  - unfold pendingFor. simpl. repeat split; reflexivity.
  - intros [|[|[|j]]] rj Hne Hj (_ & Hrid & _); simpl in Hj.
    + injection Hj as <-. discriminate Hrid.
    + lia.
    + discriminate Hj.
    + discriminate Hj.
Defined.

(** ** The localStorage wrapper *)

(** C9. For every key and fallback, [LS.get] never throws.  It returns the
    fallback when the key is absent, when the stored text is not valid
    JSON, and when the text parses to [null]; otherwise it returns the
    parsed value.  [JSON.parse] is the host's: it reads the text [null] as
    the value [null] and never yields [undefined]. *)
Theorem LS_get_fallback (JSON_parse : string → option jsvalue)
    (storage : gmap string string) (key : string) (fallback : jsvalue) :
  JSON_parse "null" = Some JNull →
  (∀ text, JSON_parse text ≠ Some JUndefined) →
  LS.get JSON_parse storage key fallback ≠ Throws
  ∧ (storage !! key = None →
       LS.get JSON_parse storage key fallback = Returns fallback)
  ∧ (∀ text, storage !! key = Some text → JSON_parse text = None →
       LS.get JSON_parse storage key fallback = Returns fallback)
  ∧ (∀ text, storage !! key = Some text → JSON_parse text = Some JNull →
       LS.get JSON_parse storage key fallback = Returns fallback)
  ∧ (∀ text v, storage !! key = Some text → JSON_parse text = Some v →
       v ≠ JNull →
       LS.get JSON_parse storage key fallback = Returns v).
Proof.
  intros Hnull Hundef. unfold LS.get, LS.parseItem, LS.getItem.
  split_and!.
  - destruct (JSON_parse (default "null" (storage !! key))); simpl; discriminate.
  - intros ->. simpl. by rewrite Hnull.
  - intros text -> Hbad. simpl. by rewrite Hbad.
  - intros text -> Hv. simpl. by rewrite Hv.
  - intros text v -> Hv Hnn. simpl. rewrite Hv. simpl.
    unfold coalesce. destruct v; simpl; try done.
    by destruct (Hundef text).
Qed.

Lemma LS_get_fallback_witness :
  LS.get LS.parse_literal {["flag" := "true"; "junk" := "{oops"]} "flag"
    (JArray []) ≠ Throws
  ∧ (({["flag" := "true"; "junk" := "{oops"]} : gmap string string) !! "flag"
     = None →
       LS.get LS.parse_literal {["flag" := "true"; "junk" := "{oops"]} "flag"
         (JArray []) = Returns (JArray []))
  ∧ (∀ text,
       ({["flag" := "true"; "junk" := "{oops"]} : gmap string string) !! "flag"
       = Some text →
       LS.parse_literal text = None →
       LS.get LS.parse_literal {["flag" := "true"; "junk" := "{oops"]} "flag"
         (JArray []) = Returns (JArray []))
  ∧ (∀ text,
       ({["flag" := "true"; "junk" := "{oops"]} : gmap string string) !! "flag"
       = Some text →
       LS.parse_literal text = Some JNull →
       LS.get LS.parse_literal {["flag" := "true"; "junk" := "{oops"]} "flag"
         (JArray []) = Returns (JArray []))
  ∧ (∀ text v,
       ({["flag" := "true"; "junk" := "{oops"]} : gmap string string) !! "flag"
       = Some text →
       LS.parse_literal text = Some v →
       v ≠ JNull →
       LS.get LS.parse_literal {["flag" := "true"; "junk" := "{oops"]} "flag"
         (JArray []) = Returns v).
Proof.
  apply (LS_get_fallback LS.parse_literal
           {["flag" := "true"; "junk" := "{oops"]} "flag" (JArray [])).
  - reflexivity.
  - intros text. unfold LS.parse_literal.
    repeat case_decide; discriminate.
Defined.

(** [LS.get] on a store with a good, a bad and a missing entry. *)
Example LS_get_runs :
  let storage : gmap string string :=
    {["flag" := "true"; "junk" := "{oops"; "empty" := "null"]} in
  LS.get LS.parse_literal storage "flag" (JArray []) = Returns (JBool true)
  ∧ LS.get LS.parse_literal storage "junk" (JArray []) = Returns (JArray [])
  ∧ LS.get LS.parse_literal storage "empty" (JArray []) = Returns (JArray [])
  ∧ LS.get LS.parse_literal storage "users" JUndefined = Returns JUndefined.
Proof. vm_compute. done. Qed.

(** ** The sampling loop *)

Section sample_facts.
Context (students : list User.t) (goal : Z).

Lemma sample_unfold draws chosen :
  sample students goal draws chosen =
  if decide (Z.of_nat (length chosen) < goal)%Z then
    match draws with
    | [] => OutOfDraws
    | d :: rest =>
        match students !! (d mod length students) with
        | None => Throws
        | Some pick =>
            sample students goal rest
              (if decide (User.id pick ∈ chosen) then chosen
               else chosen ++ [User.id pick])
        end
    end
  else Returns chosen.
Proof. by destruct draws. Qed.

(** One iteration grows [chosen] by at most one id. *)
Lemma push_length (x : string) chosen :
  length (if decide (x ∈ chosen) then chosen else chosen ++ [x])
  ≤ S (length chosen).
Proof. case_decide; rewrite ?length_app; simpl; lia. Qed.

Lemma push_NoDup (x : string) chosen :
  NoDup chosen →
  NoDup (if decide (x ∈ chosen) then chosen else chosen ++ [x]).
Proof.
  intros Hnd. case_decide; [done|].
  apply NoDup_app. split_and!; [done | | apply NoDup_singleton].
  intros y Hy ->%list_elem_of_singleton. done.
Qed.

Lemma push_elem (x y : string) chosen :
  y ∈ (if decide (x ∈ chosen) then chosen else chosen ++ [x]) →
  y ∈ chosen ∨ y = x.
Proof.
  case_decide; [auto|].
  intros [?| ->%list_elem_of_singleton]%elem_of_app; auto.
Qed.

Lemma push_keeps (x y : string) chosen :
  y ∈ chosen ∨ y = x →
  y ∈ (if decide (x ∈ chosen) then chosen else chosen ++ [x]).
Proof.
  case_decide; intros [?| ->]; try done.
  - apply elem_of_app. by left.
  - apply elem_of_app. right. by apply list_elem_of_singleton.
Qed.

(** On return the loop has reached the goal exactly, or never ran. *)
Lemma sample_length draws chosen res :
  sample students goal draws chosen = Returns res →
  ((Z.of_nat (length chosen) ≤ goal)%Z → Z.of_nat (length res) = goal)
  ∧ ((goal < Z.of_nat (length chosen))%Z → res = chosen).
Proof.
  revert chosen. induction draws as [|d rest IH]; intros chosen;
    rewrite sample_unfold; case_decide as Hlt; try discriminate.
  - intros [= <-]. split; [lia | done].
  - destruct (students !! (d mod length students)) as [pick|];
      [|discriminate].
    intros Hres. apply IH in Hres as [Hle _].
    pose proof (push_length (User.id pick) chosen).
    split; [intros _; apply Hle; lia | lia].
  - intros [= <-]. split; [lia | done].
Qed.

Lemma sample_NoDup draws chosen res :
  NoDup chosen →
  sample students goal draws chosen = Returns res → NoDup res.
Proof.
  revert chosen. induction draws as [|d rest IH]; intros chosen Hnd;
    rewrite sample_unfold; case_decide; try discriminate;
    try (by intros [= <-]).
  destruct (students !! (d mod length students)) as [pick|]; [|discriminate].
  apply IH. by apply push_NoDup.
Qed.

(** Every id in the result was already chosen or is a student's. *)
Lemma sample_elem draws chosen res x :
  sample students goal draws chosen = Returns res →
  x ∈ res → x ∈ chosen ∨ x ∈ User.id <$> students.
Proof.
  revert chosen. induction draws as [|d rest IH]; intros chosen;
    rewrite sample_unfold; case_decide; try discriminate;
    try (intros [= <-]; by left).
  destruct (students !! (d mod length students)) as [pick|] eqn:Hpick;
    [|discriminate].
  intros Hres Hx. destruct (IH _ Hres Hx) as [Hin|Hin]; [|by right].
  apply push_elem in Hin as [?| ->]; [by left|]. right.
  apply list_elem_of_fmap_2. apply list_elem_of_lookup. eauto.
Qed.

(** [pick] is never [undefined]: the loop body runs only when the pool
    is not empty. *)
Lemma sample_no_throw draws chosen :
  (goal ≤ Z.of_nat (length students))%Z →
  sample students goal draws chosen ≠ Throws.
Proof.
  intros Hgoal. revert chosen.
  induction draws as [|d rest IH]; intros chosen;
    rewrite sample_unfold; case_decide as Hlt; try discriminate.
  assert (d mod length students < length students) as Hd
    by (apply Nat.mod_upper_bound; lia).
  apply lookup_lt_is_Some_2 in Hd as [pick ->]. apply IH.
Qed.

(** The loop returns once every index of the pool has been drawn,
    provided the students' ids are pairwise different. *)
Lemma sample_returns draws chosen :
  (goal ≤ Z.of_nat (length students))%Z →
  NoDup (User.id <$> students) →
  (∀ i u, students !! i = Some u →
     User.id u ∈ chosen
     ∨ ∃ d, d ∈ draws ∧ d mod length students = i) →
  ∃ res, sample students goal draws chosen = Returns res.
Proof.
  intros Hgoal Hnd. revert chosen.
  induction draws as [|d rest IH]; intros chosen Hcov;
    rewrite sample_unfold; case_decide as Hlt; eauto.
  - exfalso.
    assert (User.id <$> students ⊆+ chosen) as Hsub.
    { apply NoDup_submseteq; [done|].
      intros x (u & -> & [i Hi]%list_elem_of_lookup)%list_elem_of_fmap.
      destruct (Hcov i u Hi) as [?|(d & Hd & _)]; [done|].
      by apply not_elem_of_nil in Hd. }
    apply submseteq_length in Hsub. rewrite length_fmap in Hsub. lia.
  - assert (d mod length students < length students) as Hd
      by (apply Nat.mod_upper_bound; lia).
    apply lookup_lt_is_Some_2 in Hd as [pick Hpick]. rewrite Hpick.
    apply IH. intros i u Hi.
    destruct (Hcov i u Hi) as [Hin|(d' & Hd' & Hmod)].
    + left. apply push_keeps. by left.
    + apply elem_of_cons in Hd' as [->|Hd'].
      * left. apply push_keeps. right. rewrite Hmod in Hpick. congruence.
      * right. eauto.
Qed.
End sample_facts.

(** ** Reviewer auto-assignment *)

Lemma eligible_spec users s u :
  u ∈ eligible users s ↔
  (User.role u = student ∧ User.id u ≠ Submission.authorId s) ∧ u ∈ users.
Proof. unfold eligible. by rewrite list_elem_of_filter. Qed.

Lemma eligible_NoDup users s :
  NoDup (User.id <$> users) → NoDup (User.id <$> eligible users s).
Proof.
  intros Hnd. eapply sublist_NoDup; [exact Hnd|].
  unfold eligible. apply fmap_sublist, sublist_filter.
Qed.

Lemma reviewersNeeded_found l s a :
  findAssignment (Submission.assignmentId s) l = Some a →
  reviewersNeeded l s = orTwo (Assignment.reviewersPerSubmission a).
Proof. intros H. unfold reviewersNeeded. by rewrite H. Qed.

Lemma target_le_pool needed students :
  (target needed students ≤ Z.of_nat (length students))%Z.
Proof. unfold target. lia. Qed.

Lemma chooseReviewers_length users l s draws chosen :
  chooseReviewers users l s draws = Returns chosen →
  length chosen
  = Z.to_nat (target (reviewersNeeded l s) (eligible users s)).
Proof.
  unfold chooseReviewers. intros [Hle Hneg]%sample_length. simpl in *.
  destruct (decide (0 ≤ target (reviewersNeeded l s) (eligible users s))%Z).
  - specialize (Hle ltac:(done)). lia.
  - rewrite Hneg by lia. simpl. lia.
Qed.

Lemma chooseReviewers_NoDup users l s draws chosen :
  chooseReviewers users l s draws = Returns chosen → NoDup chosen.
Proof. apply sample_NoDup, NoDup_nil_2. Qed.

Lemma chooseReviewers_eligible users l s draws chosen rid :
  chooseReviewers users l s draws = Returns chosen → rid ∈ chosen →
  ∃ u, u ∈ eligible users s ∧ User.id u = rid.
Proof.
  intros Hres Hin.
  destruct (sample_elem _ _ _ _ _ _ Hres Hin) as [Hnil|Hpool].
  - by apply not_elem_of_nil in Hnil.
  - apply list_elem_of_fmap in Hpool as (u & -> & Hu). eauto.
Qed.

Lemma chooseReviewers_no_throw users l s draws :
  chooseReviewers users l s draws ≠ Throws.
Proof. apply sample_no_throw, target_le_pool. Qed.

Lemma chooseReviewers_returns users l s draws :
  NoDup (User.id <$> users) →
  covers (eligible users s) draws →
  ∃ chosen, chooseReviewers users l s draws = Returns chosen.
Proof.
  intros Hnd Hcov. apply sample_returns.
  - apply target_le_pool.
  - by apply eligible_NoDup.
  - intros i u Hi. right. apply Hcov. eauto using lookup_lt_Some.
Qed.

Lemma chooseReviewers_empty_pool users l s draws :
  eligible users s = [] → chooseReviewers users l s draws = Returns [].
Proof.
  intros Hnil. unfold chooseReviewers. rewrite Hnil, sample_unfold.
  unfold target. simpl. case_decide; [lia | done].
Qed.

Lemma createSubmission_Returns users s draws uids clock st st' :
  createSubmission users s draws uids clock st = Returns st' ↔
  ∃ chosen,
    chooseReviewers users (assignments st) s draws = Returns chosen
    ∧ st' = mkState (assignments st) (submissions st ++ [s])
              (reviews st ++ placeholders uids clock s chosen).
Proof.
  unfold createSubmission.
  destruct (chooseReviewers users (assignments st) s draws) as [chosen| |];
    simpl; split.
  - intros [= <-]. eauto.
  - intros (? & [= <-] & ->). done.
  - done.
  - intros (? & ? & _). done.
  - done.
  - intros (? & ? & _). done.
Qed.

Lemma created_placeholders st l sub uids clock s chosen :
  created st (mkState l sub (reviews st ++ placeholders uids clock s chosen))
  = placeholders uids clock s chosen.
Proof. unfold created. simpl. apply drop_app_length. Qed.

Lemma placeholders_reviewerId uids clock s chosen :
  Review.reviewerId <$> placeholders uids clock s chosen = chosen.
Proof.
  unfold placeholders. rewrite fmap_imap.
  apply list_eq. intros i. rewrite list_lookup_imap.
  by destruct (chosen !! i).
Qed.

Lemma placeholders_shape uids clock s chosen r :
  r ∈ placeholders uids clock s chosen →
  Review.status r = pending
  ∧ Review.submissionId r = Submission.id s
  ∧ Review.reviewerId r ∈ chosen
  ∧ Review.scores r = None
  ∧ Review.comment r = None.
Proof.
  unfold placeholders. intros [i Hi]%list_elem_of_lookup.
  rewrite list_lookup_imap in Hi.
  destruct (chosen !! i) as [rid|] eqn:Hrid; simplify_eq/=.
  split_and!; try done. by eapply list_elem_of_lookup_2.
Qed.

(** C1. The eligible pool of a submission is the listed users with role
    student whose id is not the author's.  For an assignment with a
    positive [reviewersPerSubmission] n, a run of [createSubmission] never
    throws; whenever it returns, it has appended exactly
    min(n, size of that pool) reviews to the collection, each a pending
    placeholder for the new submission with null scores and comment whose
    reviewer is a user of the pool; when the users' ids are pairwise
    different it does return as soon as the random draws have hit every
    index of the pool; and with an empty pool it returns on any draws
    with the review collection unchanged. *)
Theorem createSubmission_reviewer_count users st s a n uids clock :
  findAssignment (Submission.assignmentId s) (assignments st) = Some a →
  Assignment.reviewersPerSubmission a = Some n → (0 < n)%Z →
  let pool :=
    filter (λ u, User.role u = student
                 ∧ User.id u ≠ Submission.authorId s) users in
  (∀ draws, createSubmission users s draws uids clock st ≠ Throws)
  ∧ (∀ draws st',
       createSubmission users s draws uids clock st = Returns st' →
       reviews st' = reviews st ++ created st st'
       ∧ length (created st st') = Nat.min (Z.to_nat n) (length pool)
       ∧ Forall (λ r, Review.status r = pending
                      ∧ Review.submissionId r = Submission.id s
                      ∧ Review.scores r = None
                      ∧ Review.comment r = None) (created st st')
       ∧ Forall (λ r, ∃ u, u ∈ users
                           ∧ User.role u = student
                           ∧ User.id u ≠ Submission.authorId s
                           ∧ Review.reviewerId r = User.id u)
           (created st st'))
  ∧ (∀ draws, NoDup (User.id <$> users) → covers pool draws →
       ∃ st', createSubmission users s draws uids clock st = Returns st')
  ∧ (pool = [] →
       ∀ draws, createSubmission users s draws uids clock st
                = Returns (mkState (assignments st) (submissions st ++ [s])
                             (reviews st)))
  ∧ (∀ u, u ∈ pool ↔
       u ∈ users ∧ User.role u = student
       ∧ User.id u ≠ Submission.authorId s)
  ∧ (∀ draws chosen,
       chooseReviewers users (assignments st) s draws = Returns chosen →
       length chosen = Nat.min (Z.to_nat n) (length pool)
       ∧ ∀ rid, rid ∈ chosen → rid ∈ User.id <$> pool).
Proof.
  intros Hfind Hrps Hpos pool.
  assert (pool = eligible users s) as Hpool by reflexivity.
  rewrite Hpool. clear pool Hpool.
  assert (∀ draws chosen,
            chooseReviewers users (assignments st) s draws = Returns chosen →
            length chosen
            = Nat.min (Z.to_nat n) (length (eligible users s))) as Hcount.
  { intros draws chosen Hch.
    rewrite (chooseReviewers_length _ _ _ _ _ Hch).
    rewrite (reviewersNeeded_found _ _ _ Hfind), Hrps.
    unfold target, orTwo. case_decide; lia. }
  split_and!.
  - intros draws. unfold createSubmission.
    pose proof (chooseReviewers_no_throw users (assignments st) s draws).
    by destruct (chooseReviewers users (assignments st) s draws).
  - intros draws st' (chosen & Hch & ->)%createSubmission_Returns.
    rewrite created_placeholders. split_and!; [done | | |].
    + unfold placeholders. rewrite length_imap. by eapply Hcount.
    + apply Forall_forall. intros r Hr.
      by destruct (placeholders_shape _ _ _ _ _ Hr) as (? & ? & _ & ? & ?).
    + apply Forall_forall. intros r Hr.
      destruct (placeholders_shape _ _ _ _ _ Hr) as (_ & _ & Hrid & _).
      destruct (chooseReviewers_eligible _ _ _ _ _ _ Hch Hrid)
        as (u & Hu & Hid).
      apply eligible_spec in Hu as [[Hrole Hne] Hin].
      exists u. split; [done|]. split; [done|]. split; [done|].
      symmetry. exact Hid.
  - intros draws Hnd Hcov.
    destruct (chooseReviewers_returns users (assignments st) s draws Hnd Hcov)
      as [chosen Hch].
    eexists. apply createSubmission_Returns. eauto.
  - intros Hnil draws. apply createSubmission_Returns.
    exists []. split; [by apply chooseReviewers_empty_pool|].
    unfold placeholders. simpl. by rewrite app_nil_r.
  - intros u. rewrite eligible_spec. tauto.
  - intros draws chosen Hch. split; [by eapply Hcount|].
    intros rid Hrid.
    destruct (chooseReviewers_eligible _ _ _ _ _ _ Hch Hrid) as (u & Hu & <-).
    by apply list_elem_of_fmap_2.
Qed.

(** C4. The placeholders appended by one run of [createSubmission] carry
    pairwise different reviewer ids. *)
Theorem createSubmission_distinct_reviewers users s draws uids clock st st' :
  createSubmission users s draws uids clock st = Returns st' →
  NoDup (Review.reviewerId <$> created st st').
Proof.
  intros (chosen & Hch & ->)%createSubmission_Returns.
  rewrite created_placeholders, placeholders_reviewerId.
  by eapply chooseReviewers_NoDup.
Qed.

Lemma createSubmission_reviewer_count_witness :
  let st := mkState [Sample.essay] [] [] in
  let pool :=
    filter (λ u, User.role u = student
                 ∧ User.id u ≠ Submission.authorId Sample.work)
      Sample.users in
  (∀ draws,
     createSubmission Sample.users Sample.work draws Sample.uids Sample.clock st
     ≠ Throws)
  ∧ (∀ draws st',
       createSubmission Sample.users Sample.work draws Sample.uids
         Sample.clock st = Returns st' →
       reviews st' = reviews st ++ created st st'
       ∧ length (created st st') = Nat.min (Z.to_nat 2) (length pool)
       ∧ Forall (λ r, Review.status r = pending
                      ∧ Review.submissionId r = Submission.id Sample.work
                      ∧ Review.scores r = None
                      ∧ Review.comment r = None) (created st st')
       ∧ Forall (λ r, ∃ u, u ∈ Sample.users
                           ∧ User.role u = student
                           ∧ User.id u ≠ Submission.authorId Sample.work
                           ∧ Review.reviewerId r = User.id u)
           (created st st'))
  ∧ (∀ draws, NoDup (User.id <$> Sample.users) → covers pool draws →
       ∃ st', createSubmission Sample.users Sample.work draws Sample.uids
                Sample.clock st = Returns st')
  ∧ (pool = [] →
       ∀ draws, createSubmission Sample.users Sample.work draws Sample.uids
                  Sample.clock st
                = Returns (mkState (assignments st)
                             (submissions st ++ [Sample.work]) (reviews st)))
  ∧ (∀ u, u ∈ pool ↔
       u ∈ Sample.users ∧ User.role u = student
       ∧ User.id u ≠ Submission.authorId Sample.work)
  ∧ (∀ draws chosen,
       chooseReviewers Sample.users (assignments st) Sample.work draws
       = Returns chosen →
       length chosen = Nat.min (Z.to_nat 2) (length pool)
       ∧ ∀ rid, rid ∈ chosen → rid ∈ User.id <$> pool).
Proof.
  apply (createSubmission_reviewer_count Sample.users
           (mkState [Sample.essay] [] []) Sample.work Sample.essay 2%Z
           Sample.uids Sample.clock).
  - reflexivity.
  - reflexivity.
  - lia.
Defined.

(** The pool of the sample submission: the seeded students other than
    its author s1; the teacher t1 is not in it. *)
Example pool_of_sample_work :
  User.id <$> filter (λ u, User.role u = student
                           ∧ User.id u ≠ Submission.authorId Sample.work)
                Sample.users
  = ["s2"; "s3"].
Proof. vm_compute. reflexivity. Qed.

Lemma createSubmission_distinct_reviewers_witness :
  NoDup (Review.reviewerId <$>
           created (mkState [Sample.essay] [] [])
             (mkState [Sample.essay] [Sample.work]
                [Review.placeholder "ra_0" "sub_1" "s3" 200%Z;
                 Review.placeholder "ra_1" "sub_1" "s2" 200%Z])).
Proof.
  apply (createSubmission_distinct_reviewers Sample.users Sample.work
           [1; 1; 0] Sample.uids Sample.clock (mkState [Sample.essay] [] [])).
  vm_compute. reflexivity.
Defined.

(** The scenarios of the specification, run on the seeded users: the
    author s1 leaves a pool of two; a fourth student makes it three; a
    lone student has nobody to review the work. *)
Example createSubmission_two_of_two :
  createSubmission Sample.users Sample.work [1; 1; 0] Sample.uids Sample.clock
    (mkState [Sample.essay] [] [])
  = Returns (mkState [Sample.essay] [Sample.work]
               [Review.placeholder "ra_0" "sub_1" "s3" 200%Z;
                Review.placeholder "ra_1" "sub_1" "s2" 200%Z]).
Proof. vm_compute. reflexivity. Qed.

Example createSubmission_two_of_three :
  created (mkState [Sample.essay] [] []) <$>
    (match createSubmission
             (Sample.users ++ [User.mk "s4" "Student Four" student "s4@x"])
             Sample.work [2; 2; 0; 1] Sample.uids Sample.clock
             (mkState [Sample.essay] [] []) with
     | Returns st' => Some st'
     | _ => None
     end)
  = Some [Review.placeholder "ra_0" "sub_1" "s4" 200%Z;
          Review.placeholder "ra_1" "sub_1" "s2" 200%Z].
Proof. vm_compute. reflexivity. Qed.

Example createSubmission_one_of_one :
  createSubmission (take 3 Sample.users) Sample.work [5; 0] Sample.uids
    Sample.clock (mkState [Sample.essay] [] [])
  = Returns (mkState [Sample.essay] [Sample.work]
               [Review.placeholder "ra_0" "sub_1" "s2" 200%Z]).
Proof. vm_compute. reflexivity. Qed.

Example createSubmission_none_eligible :
  createSubmission (take 2 Sample.users) Sample.work [] Sample.uids
    Sample.clock (mkState [Sample.essay] [] [])
  = Returns (mkState [Sample.essay] [Sample.work] []).
Proof. vm_compute. reflexivity. Qed.

(** A supply of draws that never hits the second student leaves the loop
    running. *)
Example createSubmission_unlucky_draws :
  createSubmission Sample.users Sample.work [0; 0; 2; 4] Sample.uids
    Sample.clock (mkState [Sample.essay] [] [])
  = OutOfDraws.
Proof. vm_compute. reflexivity. Qed.

(** ** The default for [reviewersPerSubmission] *)

(** C7, as stated, fails: an assignment with [reviewersPerSubmission = -1]
    is not treated like one with 2.  The negative number is truthy, so
    [|| 2] keeps it, the loop condition is false at once and nobody is
    assigned, where the value 2 assigns two reviewers. *)
Lemma negative_reviewersPerSubmission_not_defaulted :
  ¬ (∀ users l l2 s a a2 draws,
       findAssignment (Submission.assignmentId s) l = Some a →
       findAssignment (Submission.assignmentId s) l2 = Some a2 →
       Assignment.reviewersPerSubmission a2 = Some 2%Z →
       (Assignment.reviewersPerSubmission a = None
        ∨ ∃ n, Assignment.reviewersPerSubmission a = Some n ∧ (n ≤ 0)%Z) →
       chooseReviewers users l s draws = chooseReviewers users l2 s draws).
Proof.
  intros H.
  specialize (H Sample.users
                [Assignment.mk "a_1" "Essay" "Write an essay" Sample.rubric
                   100%Z (Some (-1)%Z)]
                [Sample.essay] Sample.work
                (Assignment.mk "a_1" "Essay" "Write an essay" Sample.rubric
                   100%Z (Some (-1)%Z))
                Sample.essay [0; 1]).
  assert (chooseReviewers Sample.users
            [Assignment.mk "a_1" "Essay" "Write an essay" Sample.rubric
               100%Z (Some (-1)%Z)] Sample.work [0; 1] = Returns []) as Hneg
    by (vm_compute; reflexivity).
  assert (chooseReviewers Sample.users [Sample.essay] Sample.work [0; 1]
          = Returns ["s2"; "s3"]) as Htwo by (vm_compute; reflexivity).
  rewrite Hneg, Htwo in H.
  discriminate H.
  - reflexivity.
  - reflexivity.
  - reflexivity.
  - right. exists (-1)%Z. split; [reflexivity | lia].
Qed.

(** C7, amended. When the assignment's [reviewersPerSubmission] is unset
    or zero, reviewers are chosen exactly as for an assignment whose value
    is 2, so min(2, size of the eligible pool) of them on return.  A
    negative value is kept as it is, and then nobody is assigned. *)
Theorem reviewersPerSubmission_falsy_defaults users l l2 s a a2 draws :
  findAssignment (Submission.assignmentId s) l = Some a →
  findAssignment (Submission.assignmentId s) l2 = Some a2 →
  Assignment.reviewersPerSubmission a2 = Some 2%Z →
  (Assignment.reviewersPerSubmission a = None
   ∨ Assignment.reviewersPerSubmission a = Some 0%Z →
     reviewersNeeded l s = 2%Z
     ∧ chooseReviewers users l s draws = chooseReviewers users l2 s draws
     ∧ ∀ chosen, chooseReviewers users l s draws = Returns chosen →
         length chosen = Nat.min 2 (length (eligible users s)))
  ∧ (∀ n, Assignment.reviewersPerSubmission a = Some n → (n < 0)%Z →
       reviewersNeeded l s = n
       ∧ chooseReviewers users l s draws = Returns []).
Proof.
  intros Hfind Hfind2 Hrps2. split.
  - intros Hfalsy.
    assert (reviewersNeeded l s = 2%Z) as Hneed.
    { rewrite (reviewersNeeded_found _ _ _ Hfind).
      by destruct Hfalsy as [-> | ->]. }
    assert (reviewersNeeded l2 s = 2%Z) as Hneed2.
    { by rewrite (reviewersNeeded_found _ _ _ Hfind2), Hrps2. }
    split_and!; [done | |].
    + unfold chooseReviewers. by rewrite Hneed, Hneed2.
    + intros chosen Hch. rewrite (chooseReviewers_length _ _ _ _ _ Hch), Hneed.
      unfold target. lia.
  - intros n Hrps Hneg.
    assert (reviewersNeeded l s = n) as Hneed.
    { rewrite (reviewersNeeded_found _ _ _ Hfind), Hrps.
      unfold orTwo. case_decide; [lia | done]. }
    split; [done|].
    unfold chooseReviewers. rewrite Hneed, sample_unfold.
    unfold target. simpl. case_decide; [lia | done].
Qed.

Lemma reviewersPerSubmission_falsy_defaults_witness :
  let unset := Assignment.mk "a_1" "Essay" "Write an essay" Sample.rubric
                 100%Z None in
  (Assignment.reviewersPerSubmission unset = None
   ∨ Assignment.reviewersPerSubmission unset = Some 0%Z →
     reviewersNeeded [unset] Sample.work = 2%Z
     ∧ chooseReviewers Sample.users [unset] Sample.work [1; 0]
       = chooseReviewers Sample.users [Sample.essay] Sample.work [1; 0]
     ∧ ∀ chosen,
         chooseReviewers Sample.users [unset] Sample.work [1; 0]
         = Returns chosen →
         length chosen = Nat.min 2 (length (eligible Sample.users Sample.work)))
  ∧ (∀ n, Assignment.reviewersPerSubmission unset = Some n → (n < 0)%Z →
       reviewersNeeded [unset] Sample.work = n
       ∧ chooseReviewers Sample.users [unset] Sample.work [1; 0] = Returns []).
Proof.
  apply (reviewersPerSubmission_falsy_defaults Sample.users
           [Assignment.mk "a_1" "Essay" "Write an essay" Sample.rubric
              100%Z None]
           [Sample.essay] Sample.work
           (Assignment.mk "a_1" "Essay" "Write an essay" Sample.rubric
              100%Z None)
           Sample.essay [1; 0]).
  - reflexivity.
  - reflexivity.
  - reflexivity.
Defined.

(** ** The review form *)

Lemma initScores_from (rubric : list Criterion.t) (m : Scores) :
  (∀ k, is_Some (m !! k) →
     is_Some (foldl (λ s c, <[Criterion.id c := 0%Z]> s) m rubric !! k))
  ∧ (∀ c, c ∈ rubric →
       is_Some (foldl (λ s c, <[Criterion.id c := 0%Z]> s) m rubric
                  !! Criterion.id c)).
Proof.
  revert m. induction rubric as [|c0 rubric IH]; intros m; simpl.
  - split; [done|]. intros c Hc. by apply not_elem_of_nil in Hc.
  - destruct (IH (<[Criterion.id c0 := 0%Z]> m)) as [Hkeep Hnew]. split.
    + intros k Hk. apply Hkeep.
      destruct (decide (Criterion.id c0 = k)) as [->|Hne].
      * rewrite lookup_insert_eq. eauto.
      * by rewrite lookup_insert_ne.
    + intros c [->|Hc]%elem_of_cons; [|by apply Hnew].
      apply Hkeep. rewrite lookup_insert_eq. eauto.
Qed.

(** The form starts with a score for every criterion. *)
Lemma initScores_filled rubric : filled rubric (initScores rubric).
Proof.
  apply Forall_forall. intros c Hc.
  by apply (initScores_from rubric ∅).
Qed.

(** Typing into an input keeps every score present, so [submit] never has
    to raise its alert. *)
Lemma formScores_filled rubric sc : formScores rubric sc → filled rubric sc.
Proof.
  induction 1 as [|c val sc Hc Hform IH]; [apply initScores_filled|].
  unfold filled, setScore in *. eapply Forall_impl; [exact IH|].
  intros c' Hc'. simpl in *.
  destruct (decide (Criterion.id c = Criterion.id c')) as [->|Hne].
  - rewrite lookup_insert_eq. eauto.
  - by rewrite lookup_insert_ne.
Qed.

Lemma reviewFormSubmit_Some a sc cm payload :
  reviewFormSubmit a sc cm = Some payload →
  payload = (sc, cm) ∧ filled (Assignment.rubric a) sc.
Proof. unfold reviewFormSubmit. case_decide; naive_solver. Qed.

(** ** Invariants of the reachable states *)

Lemma findAssignment_app id l k a :
  findAssignment id l = Some a → findAssignment id (l ++ k) = Some a.
Proof.
  unfold findAssignment. intros ([i x] & Hf & ->)%fmap_Some.
  by rewrite (list_find_app_l _ _ k _ _ Hf).
Qed.

Lemma findSubmission_app id l k s :
  findSubmission id l = Some s → findSubmission id (l ++ k) = Some s.
Proof.
  unfold findSubmission. intros ([i x] & Hf & ->)%fmap_Some.
  by rewrite (list_find_app_l _ _ k _ _ Hf).
Qed.

Lemma findAssignment_elem a l :
  a ∈ l → is_Some (findAssignment (Assignment.id a) l).
Proof.
  intros Hin. unfold findAssignment.
  destruct (list_find_elem_of (λ a', Assignment.id a' = Assignment.id a) l a)
    as [x ->]; [done..|]. simpl. eauto.
Qed.

Lemma findSubmission_elem id l :
  id ∈ Submission.id <$> l → is_Some (findSubmission id l).
Proof.
  intros (s & -> & Hin)%list_elem_of_fmap. unfold findSubmission.
  destruct (list_find_elem_of (λ s', Submission.id s' = Submission.id s) l s)
    as [x ->]; [done..|]. simpl. eauto.
Qed.

Lemma elem_of_insert_inv {A} (l : list A) i x y :
  y ∈ <[i:=x]> l → y = x ∨ y ∈ l.
Proof.
  intros [j Hj]%list_elem_of_lookup.
  apply list_lookup_insert_Some in Hj as [(-> & -> & _)|(_ & Hj)]; [by left|].
  right. by eapply list_elem_of_lookup_2.
Qed.

Lemma invariant_initial : invariant initial.
Proof.
  split; [split|split].
  - intros r Hr. by apply not_elem_of_nil in Hr.
  - intros s Hs. by apply not_elem_of_nil in Hs.
  - intros r s Hr. by apply not_elem_of_nil in Hr.
  - intros r Hr. by apply not_elem_of_nil in Hr.
Qed.

Lemma invariant_createAssignment a st :
  invariant st → invariant (createAssignment a st).
Proof.
  intros ((Hsub & Hasg) & Hself & Hdone). repeat split; simpl; try done.
  - intros s Hs. destruct (Hasg s Hs) as [a' Ha'].
    rewrite (findAssignment_app _ _ _ _ Ha'). eauto.
  - intros r Hr Hst. destruct (Hdone r Hr Hst) as (a' & sc & Ha' & Hsc & Hf).
    exists a', sc. split_and!; [|done..].
    unfold assignmentOf in *. simpl.
    apply bind_Some in Ha' as (sub & Hfs & Hfa).
    rewrite Hfs. simpl. by apply findAssignment_app.
Qed.

Lemma invariant_createSubmission users a currentUser fresh content now
    draws uids clock st st' :
  a ∈ assignments st →
  fresh ∉ Submission.id <$> submissions st →
  createSubmission users (newSubmission fresh a currentUser content now)
    draws uids clock st = Returns st' →
  invariant st → invariant st'.
Proof.
  intros Ha Hfresh (chosen & Hch & ->)%createSubmission_Returns
    ((Hsub & Hasg) & Hself & Hdone).
  set (s := newSubmission fresh a currentUser content now) in *.
  repeat split; simpl.
  - intros r [Hr|Hr]%elem_of_app; rewrite fmap_app, elem_of_app.
    + left. by apply Hsub.
    + right. apply placeholders_shape in Hr as (_ & -> & _).
      simpl. apply list_elem_of_singleton. done.
  - intros s' [Hs'|Hs']%elem_of_app; [by apply Hasg|].
    apply list_elem_of_singleton in Hs' as ->. simpl.
    by apply findAssignment_elem.
  - intros r s' [Hr|Hr]%elem_of_app [Hs'|Hs']%elem_of_app Hid.
    + by apply Hself.
    + apply list_elem_of_singleton in Hs' as ->. exfalso.
      apply Hfresh. specialize (Hsub r Hr). by rewrite <- Hid in Hsub.
    + apply placeholders_shape in Hr as (_ & Hsid & _). exfalso.
      apply Hfresh. rewrite Hsid in Hid. simpl in Hid. rewrite <- Hid.
      by apply list_elem_of_fmap_2.
    + apply list_elem_of_singleton in Hs' as ->.
      apply placeholders_shape in Hr as (_ & _ & Hrid & _).
      destruct (chooseReviewers_eligible _ _ _ _ _ _ Hch Hrid)
        as (u & Hu & <-).
      by apply eligible_spec in Hu as [[_ ?] _].
  - intros r [Hr|Hr]%elem_of_app Hst.
    + destruct (Hdone r Hr Hst) as (a' & sc & Ha' & Hsc & Hf).
      exists a', sc. split_and!; [|done..].
      unfold assignmentOf in *. simpl.
      apply bind_Some in Ha' as (sub & Hfs & Hfa).
      by rewrite (findSubmission_app _ _ _ _ Hfs).
    + apply placeholders_shape in Hr as (Hp & _). congruence.
Qed.

Lemma invariant_submitReview r sub a sc cm payload fresh now st :
  r ∈ reviews st →
  Review.status r = pending →
  findSubmission (Review.submissionId r) (submissions st) = Some sub →
  findAssignment (Submission.assignmentId sub) (assignments st) = Some a →
  reviewFormSubmit a sc cm = Some payload →
  invariant st →
  invariant
    (setReviews
       (submitReview fresh now (Review.submissionId r) (Review.reviewerId r)
          payload.1 payload.2) st).
Proof.
  intros Hr Hst Hfs Hfa [-> Hfilled]%reviewFormSubmit_Some
    ((Hsub & Hasg) & Hself & Hdone).
  assert (pendingFor (Review.submissionId r) (Review.reviewerId r) r) as Hp
    by done.
  destruct (list_find_elem_of _ _ _ Hr Hp) as [[idx r1] Hf].
  unfold setReviews. simpl.
  rewrite (submitReview_found _ _ _ _ _ _ _ _ _ Hf).
  apply list_find_Some in Hf as (Hidx & (Hsid & Hrid & _) & _).
  assert (r1 ∈ reviews st) as Hr1 by by eapply list_elem_of_lookup_2.
  repeat split; simpl; try done.
  - intros r' [->|Hr']%elem_of_insert_inv; [|by apply Hsub].
    simpl. by apply Hsub.
  - intros r' s [->|Hr']%elem_of_insert_inv Hs Hid; [|by apply Hself].
    simpl in *. by apply (Hself r1 s).
  - intros r' [->|Hr']%elem_of_insert_inv Hst'; [|by apply Hdone].
    exists a, sc. split_and!; [|done..].
    unfold assignmentOf. simpl. rewrite Hsid, Hfs. done.
Qed.

Lemma invariant_step st st' : step st st' → invariant st → invariant st'.
Proof.
  destruct 1.
  - apply invariant_createAssignment.
  - by eapply invariant_createSubmission.
  - by eapply invariant_submitReview.
Qed.

Lemma reachable_invariant st : reachable st → invariant st.
Proof.
  intros Hreach. apply (rtc_ind_r (R:=step) invariant initial); [| |exact Hreach].
  - apply invariant_initial.
  - intros y z _ Hstep IH. by eapply invariant_step.
Qed.

(** In a reachable state the form of a pending review always finds a
    pending row to complete: [submitReview] called from the form never
    takes its insert branch. *)
Lemma form_review_updates fresh now sc cm rs r :
  r ∈ rs → Review.status r = pending →
  length (submitReview fresh now (Review.submissionId r) (Review.reviewerId r)
            sc cm rs) = length rs.
Proof.
  intros Hr Hst.
  assert (pendingFor (Review.submissionId r) (Review.reviewerId r) r) as Hp
    by done.
  destruct (list_find_elem_of _ _ _ Hr Hp) as [[idx r1] Hf].
  rewrite (submitReview_found _ _ _ _ _ _ _ _ _ Hf). apply length_insert.
Qed.

Lemma Sample_reviewed_reachable : reachable Sample.reviewed.
Proof.
  unfold reachable.
  eapply rtc_l; [apply (step_createAssignment initial "a_1" "Essay"
                          "Write an essay" Sample.rubric 100%Z)|].
  eapply rtc_l.
  { apply (step_createSubmission _ Sample.users Sample.essay
             (User.mk "s1" "Student Rohini" student "rohini@example.com")
             "sub_1" "my essay" 200%Z [1; 1; 0] Sample.uids Sample.clock
             Sample.submitted).
    - apply list_elem_of_In. simpl. left. reflexivity.
    - simpl. apply not_elem_of_nil.
    - vm_compute. reflexivity. }
  eapply rtc_l; [|apply rtc_refl].
  apply (step_submitReview Sample.submitted
           (Review.placeholder "ra_0" "sub_1" "s3" 200%Z)
           Sample.work Sample.essay Sample.typed "well done"
           (Sample.typed, "well done") "r_7" 300%Z).
  - apply list_elem_of_In. simpl. left. reflexivity.
  - reflexivity.
  - reflexivity.
  - reflexivity.
  - unfold Sample.typed. apply (form_set _ (Criterion.mk "c2" "Completeness" 5%Z)).
    { apply list_elem_of_In. simpl. right. left. reflexivity. }
    apply (form_set _ (Criterion.mk "c1" "Quality" 5%Z)).
    { apply list_elem_of_In. simpl. left. reflexivity. }
    apply form_init.
  - unfold reviewFormSubmit. rewrite decide_True; [done|].
    apply formScores_filled.
    unfold Sample.typed. apply (form_set _ (Criterion.mk "c2" "Completeness" 5%Z)).
    { apply list_elem_of_In. simpl. right. left. reflexivity. }
    apply (form_set _ (Criterion.mk "c1" "Quality" 5%Z)).
    { apply list_elem_of_In. simpl. left. reflexivity. }
    apply form_init.
Qed.

(** ** No self-review *)

(** [submitReview] itself accepts any pair: called with the author as
    reviewer it inserts such a row.  The application never makes that
    call; its only call site passes the pair of a pending review it is
    displaying, which [step_submitReview] records. *)
Example submitReview_direct_call_by_author :
  submitReview "r_7" 300%Z "sub_1" "s1" Sample.marks "mine" Sample.assigned
  = Sample.assigned
    ++ [Review.inserted "r_7" "sub_1" "s1" Sample.marks "mine" 300%Z].
Proof. reflexivity. Qed.

(** C3. In every state reachable through the handlers of the application,
    each review refers to a stored submission and its reviewer is not that
    submission's author; and a run of [createSubmission] never creates a
    placeholder for the author of the submission it is given. *)
Theorem reviewer_is_never_author st :
  reachable st →
  (∀ r s, r ∈ reviews st → s ∈ submissions st →
     Submission.id s = Review.submissionId r →
     Review.reviewerId r ≠ Submission.authorId s)
  ∧ (∀ r, r ∈ reviews st →
       ∃ s, s ∈ submissions st ∧ Submission.id s = Review.submissionId r)
  ∧ (∀ users s draws uids clock st' r,
       createSubmission users s draws uids clock st = Returns st' →
       r ∈ created st st' →
       Review.reviewerId r ≠ Submission.authorId s).
Proof.
  intros ((Hsub & _) & Hself & _)%reachable_invariant. split_and!.
  - exact Hself.
  - intros r Hr. specialize (Hsub r Hr).
    apply list_elem_of_fmap in Hsub as (s & Hid & Hs). eauto.
  - intros users s draws uids clock st' r
      (chosen & Hch & ->)%createSubmission_Returns.
    rewrite created_placeholders.
    intros (_ & _ & Hrid & _)%placeholders_shape.
    destruct (chooseReviewers_eligible _ _ _ _ _ _ Hch Hrid) as (u & Hu & <-).
    by apply eligible_spec in Hu as [[_ ?] _].
Qed.

Lemma reviewer_is_never_author_witness :
  (∀ r s, r ∈ reviews Sample.reviewed → s ∈ submissions Sample.reviewed →
     Submission.id s = Review.submissionId r →
     Review.reviewerId r ≠ Submission.authorId s)
  ∧ (∀ r, r ∈ reviews Sample.reviewed →
       ∃ s, s ∈ submissions Sample.reviewed
            ∧ Submission.id s = Review.submissionId r)
  ∧ (∀ users s draws uids clock st' r,
       createSubmission users s draws uids clock Sample.reviewed = Returns st' →
       r ∈ created Sample.reviewed st' →
       Review.reviewerId r ≠ Submission.authorId s).
Proof.
  apply (reviewer_is_never_author Sample.reviewed).
  apply Sample_reviewed_reachable.
Defined.

(** ** Completed reviews carry a full set of scores *)

(** C8. In every state reachable through the handlers of the application,
    every review with status done holds a scores object with a number for
    each criterion of the rubric of the assignment its submission belongs
    to. *)
Theorem done_reviews_fully_scored st r :
  reachable st → r ∈ reviews st → Review.status r = done →
  ∃ a sc,
    assignmentOf st r = Some a
    ∧ Review.scores r = Some sc
    ∧ ∀ c, c ∈ Assignment.rubric a → ∃ n : Z, sc !! Criterion.id c = Some n.
Proof.
  intros (_ & _ & Hdone)%reachable_invariant Hr Hst.
  destruct (Hdone r Hr Hst) as (a & sc & Ha & Hsc & Hfilled).
  exists a, sc. split_and!; [done..|].
  intros c Hc. unfold filled in Hfilled.
  rewrite Forall_forall in Hfilled. by apply Hfilled.
Qed.

Lemma done_reviews_fully_scored_witness :
  ∃ a sc,
    assignmentOf Sample.reviewed Sample.review_done = Some a
    ∧ Review.scores Sample.review_done = Some sc
    ∧ ∀ c, c ∈ Assignment.rubric a → ∃ n : Z, sc !! Criterion.id c = Some n.
Proof.
  apply (done_reviews_fully_scored Sample.reviewed Sample.review_done).
  - apply Sample_reviewed_reachable.
  - apply list_elem_of_In. vm_compute. left. reflexivity.
  - reflexivity.
Defined.

(** The sample session ends with one completed and one pending review. *)
Example Sample_reviewed_runs :
  reviews Sample.reviewed
  = [Sample.review_done; Review.placeholder "ra_1" "sub_1" "s2" 200%Z]
  ∧ Review.scores Sample.review_done = Some Sample.marks.
Proof. split; vm_compute; reflexivity. Qed.

(** ** Writing to and reading from the store *)

(** What [LS.get] returns, in one expression. *)
Lemma LS_get_value (JSON_parse : string → option jsvalue)
    (storage : gmap string string) key fallback :
  LS.get JSON_parse storage key fallback
  = Returns (match JSON_parse (default "null" (storage !! key)) with
             | Some v => coalesce v fallback
             | None => fallback
             end).
Proof.
  unfold LS.get, LS.parseItem, LS.getItem.
  by destruct (JSON_parse (default "null" (storage !! key))).
Qed.

(** A value written with [LS.set] is read back by [LS.get] under the same
    key (the fallback taking the place of [null]), provided the host's
    [JSON.parse] inverts [JSON.stringify] on it; reads of every other key
    are unaffected, and a second write to the key replaces the first. *)
Theorem LS_set_then_get (JSON_parse : string → option jsvalue)
    (JSON_stringify : jsvalue → option string)
    (storage : gmap string string) key val text fallback :
  JSON_stringify val = Some text → JSON_parse text = Some val →
  LS.get JSON_parse (LS.set JSON_stringify storage key val) key fallback
  = Returns (coalesce val fallback)
  ∧ (nullish val = false →
       LS.get JSON_parse (LS.set JSON_stringify storage key val) key fallback
       = Returns val)
  ∧ (∀ key', key' ≠ key →
       LS.get JSON_parse (LS.set JSON_stringify storage key val) key' fallback
       = LS.get JSON_parse storage key' fallback)
  ∧ (∀ val0,
       LS.set JSON_stringify (LS.set JSON_stringify storage key val0) key val
       = LS.set JSON_stringify storage key val).
Proof.
  intros Hs Hp.
  assert (LS.get JSON_parse (LS.set JSON_stringify storage key val) key fallback
          = Returns (coalesce val fallback)) as Hget.
  { rewrite LS_get_value. unfold LS.set, LS.setItem.
    rewrite lookup_insert_eq, Hs. simpl. by rewrite Hp. }
  split_and!.
  - exact Hget.
  - intros Hnn. rewrite Hget. unfold coalesce. by rewrite Hnn.
  - intros key' Hne. rewrite !LS_get_value. unfold LS.set, LS.setItem.
    by rewrite lookup_insert_ne.
  - intros val0. unfold LS.set, LS.setItem. apply insert_insert_eq.
Qed.

Lemma LS_set_then_get_witness :
  let storage : gmap string string := {["flag" := "true"]} in
  LS.get Table.parse (LS.set Table.stringify storage "users" seedUsers)
    "users" (JArray [])
  = Returns (coalesce seedUsers (JArray []))
  ∧ (nullish seedUsers = false →
       LS.get Table.parse (LS.set Table.stringify storage "users" seedUsers)
         "users" (JArray [])
       = Returns seedUsers)
  ∧ (∀ key', key' ≠ "users" →
       LS.get Table.parse (LS.set Table.stringify storage "users" seedUsers)
         key' (JArray [])
       = LS.get Table.parse storage key' (JArray []))
  ∧ (∀ val0,
       LS.set Table.stringify (LS.set Table.stringify storage "users" val0)
         "users" seedUsers
       = LS.set Table.stringify storage "users" seedUsers).
Proof.
  apply (LS_set_then_get Table.parse Table.stringify {["flag" := "true"]}
           "users" seedUsers "[seed users]" (JArray [])).
  - reflexivity.
  - reflexivity.
Defined.

(** Writing [undefined] or [null] with [LS.set] leaves an entry that
    [LS.get] answers with the fallback: [undefined] is stored as the text
    [undefined], which is not JSON, and [null] parses to [null]. *)
Theorem LS_set_nullish_reads_fallback (JSON_parse : string → option jsvalue)
    (JSON_stringify : jsvalue → option string)
    (storage : gmap string string) key fallback :
  JSON_stringify JUndefined = None → JSON_parse "undefined" = None →
  JSON_stringify JNull = Some "null" → JSON_parse "null" = Some JNull →
  LS.set JSON_stringify storage key JUndefined !! key = Some "undefined"
  ∧ LS.get JSON_parse (LS.set JSON_stringify storage key JUndefined) key
      fallback = Returns fallback
  ∧ LS.get JSON_parse (LS.set JSON_stringify storage key JNull) key
      fallback = Returns fallback.
Proof.
  intros Hsu Hpu Hsn Hpn. unfold LS.set, LS.setItem. split_and!.
  - by rewrite lookup_insert_eq, Hsu.
  - rewrite LS_get_value, lookup_insert_eq, Hsu. simpl. by rewrite Hpu.
  - rewrite LS_get_value, lookup_insert_eq, Hsn. simpl. by rewrite Hpn.
Qed.

Lemma LS_set_nullish_reads_fallback_witness :
  LS.set Table.stringify ∅ "currentUser" JUndefined !! "currentUser"
  = Some "undefined"
  ∧ LS.get Table.parse (LS.set Table.stringify ∅ "currentUser" JUndefined)
      "currentUser" (JString "nobody") = Returns (JString "nobody")
  ∧ LS.get Table.parse (LS.set Table.stringify ∅ "currentUser" JNull)
      "currentUser" (JString "nobody") = Returns (JString "nobody").
Proof.
  apply (LS_set_nullish_reads_fallback Table.parse Table.stringify ∅
           "currentUser" (JString "nobody")); reflexivity.
Defined.

(** ** Seeding *)

Section seed_facts.
Context (JSON_parse : string → option jsvalue)
        (JSON_stringify : jsvalue → option string).

Lemma LS_get_seen storage key :
  LS.get JSON_parse storage key JUndefined = Returns (seen JSON_parse storage key).
Proof. apply LS_get_value. Qed.

Lemma seedEntry_value key val storage :
  seedEntry JSON_parse JSON_stringify key val storage
  = Returns (if truthy (seen JSON_parse storage key) then storage
             else LS.set JSON_stringify storage key val).
Proof. unfold seedEntry. by rewrite LS_get_seen. Qed.

Lemma seedEntry_returns key val storage :
  ∃ storage',
    seedEntry JSON_parse JSON_stringify key val storage = Returns storage'
    ∧ (∀ key', key' ≠ key → storage' !! key' = storage !! key')
    ∧ (truthy (seen JSON_parse storage key) = true → storage' = storage).
Proof.
  rewrite seedEntry_value. eexists. split; [done|].
  destruct (truthy (seen JSON_parse storage key)); split; try done.
  intros key' Hne. unfold LS.set, LS.setItem. by rewrite lookup_insert_ne.
Qed.

Lemma seen_other storage storage' key :
  storage' !! key = storage !! key → seen JSON_parse storage' key = seen JSON_parse storage key.
Proof. unfold seen. by intros ->. Qed.

(** After [seedEntry] the key reads truthy, when the value written is
    truthy and survives the round trip through the host's JSON. *)
Lemma seedEntry_truthy key val text storage storage' :
  JSON_stringify val = Some text → JSON_parse text = Some val →
  truthy val = true →
  seedEntry JSON_parse JSON_stringify key val storage = Returns storage' →
  truthy (seen JSON_parse storage' key) = true.
Proof.
  intros Hs Hp Hval. rewrite seedEntry_value. intros [= <-].
  destruct (truthy (seen JSON_parse storage key)) eqn:Hseen; [done|].
  unfold seen, LS.set, LS.setItem. rewrite lookup_insert_eq, Hs. simpl.
  rewrite Hp. unfold coalesce. by destruct val.
Qed.

Lemma seedEntry_spec key val storage :
  ∃ storage',
    seedEntry JSON_parse JSON_stringify key val storage = Returns storage'
    ∧ (∀ key', key' ≠ key → storage' !! key' = storage !! key')
    ∧ (truthy (seen JSON_parse storage key) = true → storage' = storage)
    ∧ (truthy (seen JSON_parse storage key) = false →
         storage' !! key = Some (default "undefined" (JSON_stringify val))).
Proof.
  rewrite seedEntry_value. eexists. split; [done|].
  destruct (truthy (seen JSON_parse storage key)); split_and!; try done.
  - intros key' Hne. unfold LS.set, LS.setItem. by rewrite lookup_insert_ne.
  - intros _. unfold LS.set, LS.setItem. by rewrite lookup_insert_eq.
Qed.

(** [seed] changes nothing once the four keys read truthy. *)
Lemma seed_settled storage :
  (∀ key, key ∈ seedKeys → truthy (seen JSON_parse storage key) = true) →
  seed JSON_parse JSON_stringify storage = Returns storage.
Proof.
  intros Hall. unfold seed.
  rewrite seedEntry_value, (Hall "users") by set_solver. simpl.
  rewrite seedEntry_value, (Hall "assignments") by set_solver. simpl.
  rewrite seedEntry_value, (Hall "submissions") by set_solver. simpl.
  rewrite seedEntry_value, (Hall "reviews") by set_solver. done.
Qed.
End seed_facts.

(** The value [seed] writes under each of its keys. *)
Lemma seedKeys_cases key :
  key ∈ seedKeys →
  key = "users" ∨ key = "assignments" ∨ key = "submissions" ∨ key = "reviews".
Proof.
  unfold seedKeys. intros H.
  repeat (apply elem_of_cons in H as [->|H]; [tauto|]).
  by apply elem_of_nil in H.
Qed.

(** [seed] never throws.  It leaves every key other than its four alone,
    leaves each of the four alone when [LS.get] reads a truthy value
    there, and otherwise stores the demo users under [users] and an empty
    array under the other three. *)
Theorem seed_writes_only_missing (JSON_parse : string → option jsvalue)
    (JSON_stringify : jsvalue → option string)
    (storage : gmap string string) :
  ∃ storage',
    seed JSON_parse JSON_stringify storage = Returns storage'
    ∧ (∀ key, key ∉ seedKeys → storage' !! key = storage !! key)
    ∧ (∀ key v, key ∈ seedKeys →
         LS.get JSON_parse storage key JUndefined = Returns v →
         truthy v = true → storage' !! key = storage !! key)
    ∧ (∀ key v, key ∈ seedKeys →
         LS.get JSON_parse storage key JUndefined = Returns v →
         truthy v = false →
         storage' !! key
         = Some (default "undefined"
                   (JSON_stringify (if decide (key = "users") then seedUsers
                                    else JArray [])))).
Proof.
  unfold seed.
  destruct (seedEntry_spec JSON_parse JSON_stringify "users" seedUsers storage)
    as (s1 & -> & Hf1 & Hk1 & Hw1). simpl.
  destruct (seedEntry_spec JSON_parse JSON_stringify "assignments" (JArray []) s1)
    as (s2 & -> & Hf2 & Hk2 & Hw2). simpl.
  destruct (seedEntry_spec JSON_parse JSON_stringify "submissions" (JArray []) s2)
    as (s3 & -> & Hf3 & Hk3 & Hw3). simpl.
  destruct (seedEntry_spec JSON_parse JSON_stringify "reviews" (JArray []) s3)
    as (s4 & -> & Hf4 & Hk4 & Hw4).
  assert (seen JSON_parse s1 "assignments" = seen JSON_parse storage "assignments")
    as E2 by (apply seen_other; by rewrite Hf1).
  assert (seen JSON_parse s2 "submissions" = seen JSON_parse storage "submissions")
    as E3 by (apply seen_other; by rewrite Hf2, Hf1).
  assert (seen JSON_parse s3 "reviews" = seen JSON_parse storage "reviews")
    as E4 by (apply seen_other; by rewrite Hf3, Hf2, Hf1).
  rewrite E2 in Hk2, Hw2. rewrite E3 in Hk3, Hw3. rewrite E4 in Hk4, Hw4.
  exists s4. split_and!; [done | | |].
  - intros key Hkey.
    rewrite Hf4, Hf3, Hf2, Hf1
      by (intros ->; apply Hkey; unfold seedKeys; set_solver).
    done.
  - intros key v Hkey. rewrite LS_get_seen. intros [= <-] Ht.
    destruct (seedKeys_cases key Hkey) as [-> | [-> | [-> | ->]]].
    + rewrite Hf4, Hf3, Hf2 by done. by rewrite (Hk1 Ht).
    + rewrite Hf4, Hf3 by done. rewrite (Hk2 Ht). by rewrite Hf1.
    + rewrite Hf4 by done. rewrite (Hk3 Ht). by rewrite Hf2, Hf1.
    + rewrite (Hk4 Ht). by rewrite Hf3, Hf2, Hf1.
  - intros key v Hkey. rewrite LS_get_seen. intros [= <-] Ht.
    destruct (seedKeys_cases key Hkey) as [-> | [-> | [-> | ->]]].
    + rewrite Hf4, Hf3, Hf2 by done. by rewrite (Hw1 Ht).
    + rewrite Hf4, Hf3 by done. by rewrite (Hw2 Ht).
    + rewrite Hf4 by done. by rewrite (Hw3 Ht).
    + by rewrite (Hw4 Ht).
Qed.

(** Running [seed] a second time changes nothing, and after [seed] each
    of the four keys reads truthy, provided the host's [JSON.parse]
    inverts [JSON.stringify] on the two values [seed] writes. *)
Theorem seed_idempotent (JSON_parse : string → option jsvalue)
    (JSON_stringify : jsvalue → option string)
    (storage storage' : gmap string string) usersText emptyText :
  JSON_stringify seedUsers = Some usersText →
  JSON_parse usersText = Some seedUsers →
  JSON_stringify (JArray []) = Some emptyText →
  JSON_parse emptyText = Some (JArray []) →
  seed JSON_parse JSON_stringify storage = Returns storage' →
  seed JSON_parse JSON_stringify storage' = Returns storage'
  ∧ ∀ key, key ∈ seedKeys →
      ∃ v, LS.get JSON_parse storage' key JUndefined = Returns v
           ∧ truthy v = true.
Proof.
  intros Hsu Hpu Hse Hpe. unfold seed at 1.
  destruct (seedEntry_spec JSON_parse JSON_stringify "users" seedUsers storage)
    as (s1 & E1 & _). rewrite E1. simpl.
  destruct (seedEntry_spec JSON_parse JSON_stringify "assignments" (JArray []) s1)
    as (s2 & E2 & Hf2 & _). rewrite E2. simpl.
  destruct (seedEntry_spec JSON_parse JSON_stringify "submissions" (JArray []) s2)
    as (s3 & E3 & Hf3 & _). rewrite E3. simpl.
  destruct (seedEntry_spec JSON_parse JSON_stringify "reviews" (JArray []) s3)
    as (s4 & E4 & Hf4 & _). rewrite E4. intros [= <-].
  pose proof (seedEntry_truthy _ _ _ _ _ _ _ Hsu Hpu eq_refl E1) as T1.
  pose proof (seedEntry_truthy _ _ _ _ _ _ _ Hse Hpe eq_refl E2) as T2.
  pose proof (seedEntry_truthy _ _ _ _ _ _ _ Hse Hpe eq_refl E3) as T3.
  pose proof (seedEntry_truthy _ _ _ _ _ _ _ Hse Hpe eq_refl E4) as T4.
  assert (∀ key, key ∈ seedKeys → truthy (seen JSON_parse s4 key) = true)
    as Hall.
  { intros key Hkey.
    destruct (seedKeys_cases key Hkey) as [-> | [-> | [-> | ->]]].
    - rewrite (seen_other JSON_parse s1 s4); [done|].
      by rewrite Hf4, Hf3, Hf2.
    - rewrite (seen_other JSON_parse s2 s4); [done|]. by rewrite Hf4, Hf3.
    - rewrite (seen_other JSON_parse s3 s4); [done|]. by rewrite Hf4.
    - done. }
  split.
  - by apply seed_settled.
  - intros key Hkey. exists (seen JSON_parse s4 key).
    split; [apply LS_get_seen | by apply Hall].
Qed.

Lemma seed_idempotent_witness :
  let seeded : gmap string string :=
    {["users" := "[seed users]"; "assignments" := "[]";
      "submissions" := "[]"; "reviews" := "[]"]} in
  seed Table.parse Table.stringify seeded = Returns seeded
  ∧ ∀ key, key ∈ seedKeys →
      ∃ v, LS.get Table.parse seeded key JUndefined = Returns v
           ∧ truthy v = true.
Proof.
  apply (seed_idempotent Table.parse Table.stringify ∅ _ "[seed users]" "[]").
  - reflexivity.
  - reflexivity.
  - reflexivity.
  - reflexivity.
  - vm_compute. reflexivity.
Defined.

(** [seed] on an empty store, and on one whose [users] entry is damaged
    and whose [reviews] entry holds data. *)
Example seed_runs :
  seed Table.parse Table.stringify ∅
  = Returns {["users" := "[seed users]"; "assignments" := "[]";
              "submissions" := "[]"; "reviews" := "[]"]}
  ∧ seed Table.parse Table.stringify
      {["users" := "{oops"; "reviews" := "[seed users]"; "theme" := "dark"]}
    = Returns {["users" := "[seed users]"; "assignments" := "[]";
                "submissions" := "[]"; "reviews" := "[seed users]";
                "theme" := "dark"]}.
Proof. split; vm_compute; reflexivity. Qed.

(** ** Identifiers *)

(** Identifiers made by [uid] for entities of different kinds never
    coincide, whatever the random parts are, and two identifiers of one
    kind coincide only when their random parts do. *)
Theorem uid_kinds_disjoint p q random random' :
  p ∈ uidPrefixes → q ∈ uidPrefixes →
  uid p random = uid q random' → p = q ∧ random = random'.
Proof.
  unfold uidPrefixes. intros Hp Hq.
  apply list_elem_of_In in Hp, Hq. simpl in Hp, Hq.
  destruct Hp as [<-|[<-|[<-|[<-|[<-|[]]]]]];
    destruct Hq as [<-|[<-|[<-|[<-|[<-|[]]]]]];
    unfold uid; simpl; intros Heq; by simplify_eq.
Qed.

Lemma uid_kinds_disjoint_witness :
  "ra" = "ra" ∧ "k3x9f2a" = "k3x9f2a".
Proof.
  apply (uid_kinds_disjoint "ra" "ra" "k3x9f2a" "k3x9f2a").
  - unfold uidPrefixes. apply list_elem_of_In. simpl. tauto.
  - unfold uidPrefixes. apply list_elem_of_In. simpl. tauto.
  - reflexivity.
Defined.

(** A review id never equals a placeholder id, for instance. *)
Example uid_review_vs_placeholder random random' :
  uid "r" random ≠ uid "ra" random'.
Proof. unfold uid. simpl. intros H. by simplify_eq. Qed.

(** ** Login *)

(** [Login] fixes its selection when it is mounted: the id of the first
    user of the list it is mounted with, the empty text for an empty
    list.  [Continue] looks the selection up in the list shown at the
    click.  It logs in the first user shown when that list is the one the
    card was mounted with; it logs in nobody when the card was mounted
    with an empty list, as on a first visit where [App] renders before
    [seed] has run, and no user shown has the empty id.  Whatever is
    selected, the user logged in is the first one shown with the selected
    id, there is one whenever the selection is the id of a user shown,
    and none otherwise. *)
Theorem login_selects_first_match (mounted shown : list User.t) :
  loginInitial mounted = default "" (User.id <$> head mounted)
  ∧ (mounted = shown →
       loginContinue shown (loginInitial mounted) = head shown)
  ∧ (mounted = [] → "" ∉ User.id <$> shown →
       loginContinue shown (loginInitial mounted) = None)
  ∧ (∀ sel u, loginContinue shown sel = Some u →
       User.id u = sel
       ∧ ∃ i, shown !! i = Some u
              ∧ ∀ j v, shown !! j = Some v → j < i → User.id v ≠ sel)
  ∧ (∀ u, u ∈ shown → is_Some (loginContinue shown (User.id u)))
  ∧ (∀ sel, sel ∉ User.id <$> shown → loginContinue shown sel = None).
Proof.
  assert (∀ sel, sel ∉ User.id <$> shown → loginContinue shown sel = None)
    as Hnone.
  { intros sel Hsel. unfold loginContinue.
    assert (list_find (λ u, User.id u = sel) shown = None) as ->; [|done].
    apply list_find_None, Forall_forall. intros u Hu <-.
    apply Hsel. by apply list_elem_of_fmap_2. }
  assert (loginInitial mounted = default "" (User.id <$> head mounted))
    as Hinit.
  { unfold loginInitial. destruct mounted as [|u l]; [done|].
    simpl. case_decide; [by symmetry | done]. }
  split_and!.
  - exact Hinit.
  - intros <-. rewrite Hinit. unfold loginContinue.
    destruct mounted as [|u l]; [done|].
    simpl. by rewrite decide_True.
  - intros -> Hempty. rewrite Hinit. simpl. by apply Hnone.
  - unfold loginContinue. intros sel u ([i x] & Hf & ->)%fmap_Some.
    apply list_find_Some in Hf as (Hi & Hid & Hfirst). simpl.
    split; [done|]. exists i. split; [done|].
    intros j v Hj Hlt. by apply (Hfirst j v).
  - unfold loginContinue. intros u Hu.
    destruct (list_find_elem_of (λ v, User.id v = User.id u) shown u)
      as [x ->]; [done..|]. simpl. eauto.
  - exact Hnone.
Qed.

(** The mock login on the seeded users. *)
Example login_runs :
  loginInitial Sample.users = "t1"
  ∧ (User.name <$> loginContinue Sample.users "s2") = Some "Student Ravi"
  ∧ loginContinue [] (loginInitial []) = None.
Proof. vm_compute. done. Qed.

(** A first visit: the card is mounted with no users, [seed] then stores
    them, and [Continue] on the untouched selection logs in nobody; once
    a user is selected, [Continue] logs that user in. *)
Example login_first_visit :
  loginInitial [] = ""
  ∧ loginContinue Sample.users (loginInitial []) = None
  ∧ (User.name <$> loginContinue Sample.users "t1") = Some "Teacher Alice".
Proof. vm_compute. done. Qed.

(** ** The rubric editor *)

Lemma updateCriterion_Some idx e rubric rubric' :
  updateCriterion idx e rubric = Some rubric' →
  ∃ c, rubric !! idx = Some c ∧ rubric' = <[idx := applyEdit e c]> rubric.
Proof.
  unfold updateCriterion. intros (c & Hc & [= <-])%bind_Some. eauto.
Qed.

Lemma applyEdit_id e c : Criterion.id (applyEdit e c) = Criterion.id c.
Proof. by destruct e. Qed.

Lemma updateCriterion_ids idx e rubric rubric' :
  updateCriterion idx e rubric = Some rubric' →
  Criterion.id <$> rubric' = Criterion.id <$> rubric.
Proof.
  intros (c & Hc & ->)%updateCriterion_Some.
  rewrite list_fmap_insert, applyEdit_id.
  apply list_insert_id. by rewrite list_lookup_fmap, Hc.
Qed.

Lemma orOne_nonzero raw : orOne raw ≠ 0%Z.
Proof. unfold orOne. destruct raw; [case_decide|]; lia. Qed.

(** Editing one row changes that row's title or maximum only: ids, the
    other rows and the number of rows stay, and a maximum typed into the
    number input is never stored as zero. *)
Theorem updateCriterion_changes_one_field idx e rubric rubric' :
  updateCriterion idx e rubric = Some rubric' →
  length rubric' = length rubric
  ∧ Criterion.id <$> rubric' = Criterion.id <$> rubric
  ∧ (∀ j, j ≠ idx → rubric' !! j = rubric !! j)
  ∧ ∃ c c', rubric !! idx = Some c ∧ rubric' !! idx = Some c'
      ∧ match e with
        | EditTitle val =>
            Criterion.title c' = val
            ∧ Criterion.maxScore c' = Criterion.maxScore c
        | EditMaxScore val =>
            Criterion.maxScore c' = val
            ∧ Criterion.title c' = Criterion.title c
        end.
Proof.
  intros Hupd. pose proof (updateCriterion_ids _ _ _ _ Hupd) as Hids.
  apply updateCriterion_Some in Hupd as (c & Hc & ->).
  split_and!; [apply length_insert | done | |].
  - intros j Hj. by apply list_lookup_insert_ne.
  - exists c, (applyEdit e c). split_and!; [done | |].
    + apply list_lookup_insert_eq. eauto using lookup_lt_Some.
    + by destruct e.
Qed.

Lemma updateCriterion_changes_one_field_witness :
  length [Criterion.mk "c1" "Quality" 9%Z; Criterion.mk "c2" "Completeness" 5%Z]
  = length Sample.rubric
  ∧ Criterion.id <$> [Criterion.mk "c1" "Quality" 9%Z;
                      Criterion.mk "c2" "Completeness" 5%Z]
    = Criterion.id <$> Sample.rubric
  ∧ (∀ j, j ≠ 0 →
       [Criterion.mk "c1" "Quality" 9%Z; Criterion.mk "c2" "Completeness" 5%Z]
         !! j = Sample.rubric !! j)
  ∧ ∃ c c', Sample.rubric !! 0 = Some c
      ∧ [Criterion.mk "c1" "Quality" 9%Z;
         Criterion.mk "c2" "Completeness" 5%Z] !! 0 = Some c'
      ∧ Criterion.maxScore c' = 9%Z
      ∧ Criterion.title c' = Criterion.title c.
Proof.
  apply (updateCriterion_changes_one_field 0 (EditMaxScore 9%Z) Sample.rubric).
  reflexivity.
Defined.

(** Every rubric the editor of [CreateAssignment] can show has pairwise
    different criterion ids (the two initial ids being different) and no
    criterion whose maximum is zero. *)
Theorem editing_keeps_ids_distinct id1 id2 rubric :
  id1 ≠ id2 → editing id1 id2 rubric →
  NoDup (Criterion.id <$> rubric)
  ∧ Forall (λ c, Criterion.maxScore c ≠ 0%Z) rubric.
Proof.
  intros Hne. induction 1 as
    [ | idx val rubric rubric' _ [IHn IHm] Hupd
      | idx raw rubric rubric' _ [IHn IHm] Hupd
      | fresh rubric _ [IHn IHm] Hfresh
      | idx rubric _ [IHn IHm] ].
  - split.
    + simpl. apply NoDup_cons. split; [by intros ->%list_elem_of_singleton|].
      apply NoDup_singleton.
    + repeat constructor; simpl; lia.
  - split; [by rewrite (updateCriterion_ids _ _ _ _ Hupd)|].
    apply updateCriterion_Some in Hupd as (c & Hc & ->).
    apply Forall_insert; [done|]. simpl.
    by apply (Forall_lookup_1 _ _ _ _ IHm Hc).
  - split; [by rewrite (updateCriterion_ids _ _ _ _ Hupd)|].
    apply updateCriterion_Some in Hupd as (c & Hc & ->).
    apply Forall_insert; [done|]. simpl. apply orOne_nonzero.
  - unfold addCriterion. split.
    + rewrite fmap_app. simpl. apply NoDup_app.
      split_and!; [done | | apply NoDup_singleton].
      intros x Hx ->%list_elem_of_singleton. done.
    + apply Forall_app. split; [done|]. repeat constructor; simpl; lia.
  - unfold removeCriterion. split.
    + eapply sublist_NoDup; [exact IHn|].
      apply fmap_sublist, sublist_delete.
    + by apply Forall_delete.
Qed.

Lemma editing_keeps_ids_distinct_witness :
  NoDup (Criterion.id <$>
           removeCriterion 0 (addCriterion "c_3" (initialRubric "c_1" "c_2")))
  ∧ Forall (λ c, Criterion.maxScore c ≠ 0%Z)
      (removeCriterion 0 (addCriterion "c_3" (initialRubric "c_1" "c_2"))).
Proof.
  apply (editing_keeps_ids_distinct "c_1" "c_2").
  - discriminate.
  - apply editing_remove, editing_add; [apply editing_initial|].
    simpl. intros H. apply list_elem_of_In in H. simpl in H.
    destruct H as [H | [H | []]]; discriminate H.
Defined.

(** [Add Criterion] followed by [Remove] on the new last row gives the
    rubric back; [Remove] past the last row and on an empty rubric does
    nothing; [Add] lengthens the rubric by one, [Remove] on a row
    shortens it by one. *)
Theorem add_then_remove_restores fresh (rubric : list Criterion.t) :
  removeCriterion (length rubric) (addCriterion fresh rubric) = rubric
  ∧ length (addCriterion fresh rubric) = S (length rubric)
  ∧ (∀ idx, length rubric ≤ idx → removeCriterion idx rubric = rubric)
  ∧ (∀ idx, idx < length rubric →
       S (length (removeCriterion idx rubric)) = length rubric).
Proof.
  unfold removeCriterion, addCriterion. split_and!.
  - induction rubric as [|c l IH]; [done|]. simpl. by rewrite IH.
  - rewrite length_app. simpl. lia.
  - intros idx Hidx. revert idx Hidx.
    induction rubric as [|c l IH]; intros [|idx] Hidx; simpl in *;
      try done; try lia.
    f_equal. apply IH. lia.
  - intros idx Hidx. rewrite length_delete; [lia|].
    by apply lookup_lt_is_Some_2.
Qed.

(** ** More about the reviewers chosen *)

(** Every reviewer chosen for a submission is the id of a listed user
    with role student, and is not the id of the author. *)
Theorem chooseReviewers_are_students users l s draws chosen rid :
  chooseReviewers users l s draws = Returns chosen → rid ∈ chosen →
  ∃ u, u ∈ users ∧ User.id u = rid ∧ User.role u = student
       ∧ rid ≠ Submission.authorId s.
Proof.
  intros Hch Hrid.
  destruct (chooseReviewers_eligible _ _ _ _ _ _ Hch Hrid) as (u & Hu & <-).
  apply eligible_spec in Hu as [[Hrole Hne] Hin]. eauto.
Qed.

Lemma chooseReviewers_are_students_witness :
  ∃ u, u ∈ Sample.users ∧ User.id u = "s3" ∧ User.role u = student
       ∧ "s3" ≠ Submission.authorId Sample.work.
Proof.
  apply (chooseReviewers_are_students Sample.users [Sample.essay] Sample.work
           [1; 1; 0] ["s3"; "s2"] "s3").
  - vm_compute. reflexivity.
  - apply list_elem_of_In. simpl. left. reflexivity.
Defined.

(** When the pool is no larger than the number of reviewers needed and
    the users' ids are pairwise different, a returning run assigns every
    eligible student: the chosen ids are the pool's ids, in some order. *)
Theorem chooseReviewers_takes_whole_pool users l s draws chosen :
  NoDup (User.id <$> users) →
  (Z.of_nat (length (eligible users s)) ≤ reviewersNeeded l s)%Z →
  chooseReviewers users l s draws = Returns chosen →
  chosen ≡ₚ User.id <$> eligible users s.
Proof.
  intros Hnd Hsmall Hch.
  apply submseteq_length_Permutation.
  - apply NoDup_submseteq; [by eapply chooseReviewers_NoDup|].
    intros rid Hrid.
    destruct (chooseReviewers_eligible _ _ _ _ _ _ Hch Hrid) as (u & Hu & <-).
    by apply list_elem_of_fmap_2.
  - rewrite (chooseReviewers_length _ _ _ _ _ Hch), length_fmap.
    unfold target. lia.
Qed.

Lemma chooseReviewers_takes_whole_pool_witness :
  ["s3"; "s2"] ≡ₚ User.id <$> eligible Sample.users Sample.work.
Proof.
  apply (chooseReviewers_takes_whole_pool Sample.users [Sample.essay]
           Sample.work [1; 1; 0] ["s3"; "s2"]).
  - apply (bool_decide_unpack _). vm_compute. reflexivity.
  - vm_compute. discriminate.
  - vm_compute. reflexivity.
Defined.

(** ** The review form, exactly *)

Lemma initScores_dom (rubric : list Criterion.t) (m : Scores) :
  dom (foldl (λ s c, <[Criterion.id c := 0%Z]> s) m rubric)
  = dom m ∪ list_to_set (Criterion.id <$> rubric).
Proof.
  revert m. induction rubric as [|c rubric IH]; intros m; simpl.
  - set_solver.
  - rewrite IH, dom_insert_L. set_solver.
Qed.

(** The scores a [ReviewForm] holds have exactly the criterion ids of
    the rubric as keys, so its [submit] never raises the alert and always
    hands the scores on; before any input every score is 0. *)
Theorem reviewForm_scores_exact (a : Assignment.t) (sc : Scores) cm :
  formScores (Assignment.rubric a) sc →
  dom sc = list_to_set (Criterion.id <$> Assignment.rubric a)
  ∧ reviewFormSubmit a sc cm = Some (sc, cm)
  ∧ (∀ c, c ∈ Assignment.rubric a →
       initScores (Assignment.rubric a) !! Criterion.id c = Some 0%Z).
Proof.
  intros Hform. split_and!.
  - induction Hform as [|c val sc Hc _ IH].
    + unfold initScores. rewrite initScores_dom. set_solver.
    + unfold setScore. rewrite dom_insert_L, IH.
      apply (list_elem_of_fmap_2 Criterion.id) in Hc. set_solver.
  - unfold reviewFormSubmit. rewrite decide_True; [done|].
    by apply formScores_filled.
  - intros c Hc. unfold initScores.
    assert (∀ (m : Scores) l,
              (∀ k, is_Some (m !! k) → m !! k = Some 0%Z) →
              ∀ k, is_Some (foldl (λ s c, <[Criterion.id c := 0%Z]> s) m l !! k) →
                   foldl (λ s c, <[Criterion.id c := 0%Z]> s) m l !! k
                   = Some 0%Z) as Hzero.
    { intros m l. revert m. induction l as [|c0 l IH]; intros m Hm k; simpl;
        [by apply Hm|].
      apply IH. intros k' Hk'.
      destruct (decide (Criterion.id c0 = k')) as [->|Hne].
      - by rewrite lookup_insert_eq.
      - rewrite lookup_insert_ne in Hk' |- * by done. by apply Hm. }
    apply (Hzero ∅).
    + intros k [x Hx]. by rewrite lookup_empty in Hx.
    + by apply (initScores_from (Assignment.rubric a) ∅).
Qed.

Lemma reviewForm_scores_exact_witness :
  dom Sample.typed = list_to_set (Criterion.id <$> Assignment.rubric Sample.essay)
  ∧ reviewFormSubmit Sample.essay Sample.typed "well done"
    = Some (Sample.typed, "well done")
  ∧ (∀ c, c ∈ Assignment.rubric Sample.essay →
       initScores (Assignment.rubric Sample.essay) !! Criterion.id c
       = Some 0%Z).
Proof.
  apply (reviewForm_scores_exact Sample.essay Sample.typed "well done").
  unfold Sample.typed.
  apply (form_set _ (Criterion.mk "c2" "Completeness" 5%Z)).
  { apply list_elem_of_In. simpl. right. left. reflexivity. }
  apply (form_set _ (Criterion.mk "c1" "Quality" 5%Z)).
  { apply list_elem_of_In. simpl. left. reflexivity. }
  apply form_init.
Defined.

(** ** Progress counters *)

Lemma filter_insert_length_gain {A} (P : A → Prop) `{!∀ x, Decision (P x)}
    (l : list A) i x y :
  l !! i = Some x → ¬ P x → P y →
  length (filter P (<[i:=y]> l)) = S (length (filter P l)).
Proof.
  revert i. induction l as [|z l IH]; intros [|i] Hi Hx Hy; simplify_eq/=.
  - rewrite !filter_cons. by rewrite decide_True, decide_False.
  - rewrite !filter_cons. specialize (IH _ Hi Hx Hy).
    case_decide; simpl; by rewrite IH.
Qed.

(** The counters shown as "done / total" for a submission: every call of
    [submitReview] for it raises the done count by exactly one; the total
    stays when a pending placeholder was found and grows by one when the
    review was inserted; the counters of every other submission stay. *)
Theorem submitReview_progress fresh now sid rid sc cm prev :
  reviewsDone sid (submitReview fresh now sid rid sc cm prev)
  = S (reviewsDone sid prev)
  ∧ reviewsTotal sid (submitReview fresh now sid rid sc cm prev)
    = match list_find (pendingFor sid rid) prev with
      | Some _ => reviewsTotal sid prev
      | None => S (reviewsTotal sid prev)
      end
  ∧ (∀ sid', sid' ≠ sid →
       reviewsDone sid' (submitReview fresh now sid rid sc cm prev)
       = reviewsDone sid' prev
       ∧ reviewsTotal sid' (submitReview fresh now sid rid sc cm prev)
         = reviewsTotal sid' prev).
Proof.
  unfold reviewsDone, reviewsTotal.
  destruct (list_find (pendingFor sid rid) prev) as [[idx r]|] eqn:Hf.
  - rewrite (submitReview_found _ _ _ _ _ _ _ _ _ Hf).
    apply list_find_Some in Hf as (Hidx & (Hsid & Hrid & Hst) & _).
    split_and!.
    + apply (filter_insert_length_gain _ _ _ r); [done | | done].
      intros [_ Hd]. congruence.
    + by apply (filter_insert_length _ _ _ r).
    + intros sid' Hne. split.
      * apply (filter_insert_length _ _ _ r); [done|]. simpl.
        split; intros [? _]; congruence.
      * apply (filter_insert_length _ _ _ r); [done|]. simpl. done.
  - rewrite (submitReview_missing _ _ _ _ _ _ _ Hf). split_and!.
    + rewrite filter_app, length_app, filter_cons_True by done. simpl. lia.
    + rewrite filter_app, length_app, filter_cons_True by done. simpl. lia.
    + intros sid' Hne. split.
      * rewrite filter_app, length_app, filter_cons_False; [simpl; lia|].
        simpl. intros [? _]. congruence.
      * rewrite filter_app, length_app, filter_cons_False; [simpl; lia|].
        simpl. congruence.
Qed.

(** The done count never exceeds the total. *)
Lemma reviewsDone_le_total sid l : reviewsDone sid l ≤ reviewsTotal sid l.
Proof.
  unfold reviewsDone, reviewsTotal.
  induction l as [|r l IH]; [done|]. rewrite !filter_cons.
  repeat case_decide; simpl; try lia. naive_solver.
Qed.

(** ** Creating an assignment *)

(** [createAssignment] touches neither submissions nor reviews, and an
    assignment found under an id before is still the one found after; the
    new assignment is found under its id exactly when no earlier one has
    that id. *)
Theorem createAssignment_keeps_lookups a st id :
  submissions (createAssignment a st) = submissions st
  ∧ reviews (createAssignment a st) = reviews st
  ∧ findAssignment id (assignments (createAssignment a st))
    = match findAssignment id (assignments st) with
      | Some a' => Some a'
      | None => if decide (Assignment.id a = id) then Some a else None
      end.
Proof.
  split_and!; [done..|]. simpl.
  destruct (findAssignment id (assignments st)) as [a'|] eqn:Hf.
  - by apply findAssignment_app.
  - unfold findAssignment in *.
    destruct (list_find (λ a0, Assignment.id a0 = id) (assignments st))
      as [[i x]|] eqn:Hl; [done|].
    rewrite (list_find_app_r _ _ _ Hl). simpl.
    case_decide; done.
Qed.

(** ** More invariants of the reachable states *)

Lemma filter_none {A} (P : A → Prop) `{!∀ x, Decision (P x)} (l : list A) :
  (∀ x, x ∈ l → ¬ P x) → filter P l = [].
Proof.
  induction l as [|x l IH]; intros Hall; [done|].
  rewrite filter_cons_False by (apply Hall; left).
  apply IH. intros y Hy. apply Hall. by right.
Qed.

Lemma filter_all {A} (P : A → Prop) `{!∀ x, Decision (P x)} (l : list A) :
  (∀ x, x ∈ l → P x) → filter P l = l.
Proof.
  induction l as [|x l IH]; intros Hall; [done|].
  rewrite filter_cons_True by (apply Hall; left).
  f_equal. apply IH. intros y Hy. apply Hall. by right.
Qed.

Lemma placeholders_pairOf uids clock s chosen :
  pairOf <$> placeholders uids clock s chosen
  = (λ rid, (Submission.id s, rid)) <$> chosen.
Proof.
  unfold placeholders. rewrite fmap_imap.
  apply list_eq. intros i. rewrite list_lookup_imap, list_lookup_fmap.
  by destruct (chosen !! i).
Qed.

Lemma placeholders_coherent uids clock s chosen :
  Forall coherent (placeholders uids clock s chosen).
Proof.
  apply Forall_forall. unfold placeholders.
  intros r [i Hi]%list_elem_of_lookup. rewrite list_lookup_imap in Hi.
  destruct (chosen !! i) as [rid|]; simplify_eq/=.
  unfold coherent. simpl. eauto.
Qed.

Lemma complete_coherent r sc cm now :
  coherent r → coherent (Review.complete r sc cm now).
Proof. intros [Ha _]. unfold coherent. simpl. eauto. Qed.

Lemma find_by_distinct_key {A} (f : A → string) (l : list A) i x :
  NoDup (f <$> l) → l !! i = Some x →
  list_find (λ y, f y = f x) l = Some (i, x).
Proof.
  intros Hnd Hi. apply list_find_Some. split_and!; [done..|].
  intros j y Hj Hlt Heq.
  assert (i = j); [|lia].
  apply (NoDup_lookup (f <$> l) i j (f x) Hnd).
  - by rewrite list_lookup_fmap, Hi.
  - by rewrite list_lookup_fmap, Hj, <- Heq.
Qed.

Lemma shaped_initial : shaped initial.
Proof.
  split_and!; simpl.
  - intros a Ha. by apply not_elem_of_nil in Ha.
  - apply NoDup_nil_2.
  - constructor.
  - apply NoDup_nil_2.
Qed.

Lemma shaped_createAssignment a st :
  Assignment.reviewersPerSubmission a = Some 2%Z →
  shaped st → shaped (createAssignment a st).
Proof.
  intros Ha (Htwo & Hpair & Hcoh & Hids). split_and!; simpl; try done.
  intros a' [Ha'| ->%list_elem_of_singleton]%elem_of_app; [by apply Htwo|done].
Qed.

Lemma shaped_createSubmission users s draws uids clock st st' :
  Submission.id s ∉ Submission.id <$> submissions st →
  createSubmission users s draws uids clock st = Returns st' →
  linked st → shaped st → shaped st'.
Proof.
  intros Hfresh (chosen & Hch & ->)%createSubmission_Returns
    [Hsub _] (Htwo & Hpair & Hcoh & Hids).
  split_and!; simpl.
  - done.
  - rewrite fmap_app, placeholders_pairOf. apply NoDup_app. split_and!.
    + done.
    + intros pr (r & -> & Hr)%list_elem_of_fmap
        (rid & Heq & _)%list_elem_of_fmap.
      apply Hfresh. specialize (Hsub r Hr).
      unfold pairOf in Heq. simpl in Heq. injection Heq as Hs _.
      by rewrite <- Hs.
    + apply NoDup_fmap_2; [|by eapply chooseReviewers_NoDup].
      intros x y Hxy. by simplify_eq.
  - apply Forall_app. split; [done | apply placeholders_coherent].
  - rewrite fmap_app. simpl. apply NoDup_app.
    split_and!; [done | | apply NoDup_singleton].
    intros x Hx ->%list_elem_of_singleton. done.
Qed.

Lemma shaped_submitReview r sc cm fresh now st :
  r ∈ reviews st → Review.status r = pending →
  shaped st →
  shaped
    (setReviews
       (submitReview fresh now (Review.submissionId r) (Review.reviewerId r)
          sc cm) st).
Proof.
  intros Hr Hst (Htwo & Hpair & Hcoh & Hids).
  assert (pendingFor (Review.submissionId r) (Review.reviewerId r) r) as Hp
    by done.
  destruct (list_find_elem_of _ _ _ Hr Hp) as [[idx r1] Hf].
  unfold setReviews. simpl.
  rewrite (submitReview_found _ _ _ _ _ _ _ _ _ Hf).
  apply list_find_Some in Hf as (Hidx & _ & _).
  split_and!; simpl; try done.
  - rewrite list_fmap_insert.
    rewrite list_insert_id; [done|]. by rewrite list_lookup_fmap, Hidx.
  - apply Forall_insert; [done|]. apply complete_coherent.
    by apply (Forall_lookup_1 _ _ _ _ Hcoh Hidx).
Qed.

Lemma shaped_step st st' :
  step st st' → invariant st → shaped st → shaped st'.
Proof.
  destruct 1 as [fresh title desc rubric now
                | users a cu fresh content now draws uids clock st' Ha Hfresh Hcs
                | r sub a sc cm payload fresh now Hr Hst Hfs Hfa Hform Hsubmit];
    intros [Hlinked _] Hshaped.
  - by apply shaped_createAssignment.
  - eapply shaped_createSubmission; [|exact Hcs|done..]. exact Hfresh.
  - by apply shaped_submitReview.
Qed.

Lemma reachable_shaped st : reachable st → invariant st ∧ shaped st.
Proof.
  intros Hreach.
  apply (rtc_ind_r (R:=step) (λ st, invariant st ∧ shaped st) initial);
    [| |exact Hreach].
  - split; [apply invariant_initial | apply shaped_initial].
  - intros y z _ Hstep [Hinv Hsh]. split.
    + by eapply invariant_step.
    + by eapply shaped_step.
Qed.

(** In every reachable state each assignment asks for two reviewers, so
    every submission needs two, and a returning run of [createSubmission]
    appends exactly min(2, size of the eligible pool) placeholders. *)
Theorem reachable_always_two_reviewers st :
  reachable st →
  (∀ a, a ∈ assignments st → Assignment.reviewersPerSubmission a = Some 2%Z)
  ∧ (∀ s, reviewersNeeded (assignments st) s = 2%Z)
  ∧ (∀ users s draws uids clock st',
       createSubmission users s draws uids clock st = Returns st' →
       length (created st st') = Nat.min 2 (length (eligible users s))).
Proof.
  intros [_ (Htwo & _)]%reachable_shaped.
  assert (∀ s, reviewersNeeded (assignments st) s = 2%Z) as Hneed.
  { intros s. unfold reviewersNeeded, findAssignment.
    destruct (list_find _ (assignments st)) as [[i a]|] eqn:Hf; [|done].
    apply list_find_Some in Hf as (Hi & _). simpl.
    by rewrite (Htwo a) by by eapply list_elem_of_lookup_2. }
  split_and!; [done..|].
  intros users s draws uids clock st'
    (chosen & Hch & ->)%createSubmission_Returns.
  rewrite created_placeholders. unfold placeholders. rewrite length_imap.
  rewrite (chooseReviewers_length _ _ _ _ _ Hch), Hneed. unfold target. lia.
Qed.

Lemma reachable_always_two_reviewers_witness :
  (∀ a, a ∈ assignments Sample.reviewed →
     Assignment.reviewersPerSubmission a = Some 2%Z)
  ∧ (∀ s, reviewersNeeded (assignments Sample.reviewed) s = 2%Z)
  ∧ (∀ users s draws uids clock st',
       createSubmission users s draws uids clock Sample.reviewed = Returns st' →
       length (created Sample.reviewed st')
       = Nat.min 2 (length (eligible users s))).
Proof.
  apply (reachable_always_two_reviewers Sample.reviewed).
  apply Sample_reviewed_reachable.
Defined.

(** In every reachable state no two reviews are for the same submission
    and reviewer: the form never makes [submitReview] insert a second
    row. *)
Theorem reachable_one_review_per_pair st i j ri rj :
  reachable st →
  reviews st !! i = Some ri → reviews st !! j = Some rj →
  Review.submissionId ri = Review.submissionId rj →
  Review.reviewerId ri = Review.reviewerId rj →
  i = j.
Proof.
  intros [_ (_ & Hpair & _)]%reachable_shaped Hi Hj Hsid Hrid.
  apply (NoDup_lookup (pairOf <$> reviews st) i j (pairOf ri) Hpair).
  - by rewrite list_lookup_fmap, Hi.
  - rewrite list_lookup_fmap, Hj. unfold pairOf. simpl. by rewrite Hsid, Hrid.
Qed.

Lemma reachable_one_review_per_pair_witness : 0 = 0.
Proof.
  apply (reachable_one_review_per_pair Sample.reviewed 0 0
           Sample.review_done Sample.review_done).
  - apply Sample_reviewed_reachable.
  - vm_compute. reflexivity.
  - vm_compute. reflexivity.
  - reflexivity.
  - reflexivity.
Defined.

(** In every reachable state each review was created as a placeholder
    (it has an assignedAt), is pending exactly when its scores are null,
    and is done exactly when it has a submittedAt. *)
Theorem reachable_reviews_coherent st r :
  reachable st → r ∈ reviews st →
  is_Some (Review.assignedAt r)
  ∧ (Review.status r = pending ↔ Review.scores r = None)
  ∧ (Review.status r = pending → Review.comment r = None)
  ∧ (Review.status r = done ↔ is_Some (Review.submittedAt r)).
Proof.
  intros [_ (_ & _ & Hcoh & _)]%reachable_shaped Hr.
  rewrite Forall_forall in Hcoh. destruct (Hcoh r Hr) as [Ha Hst].
  split; [done|].
  destruct (Review.status r); destruct Hst as (Hsc & Hcm & Hsub).
  - rewrite Hsc, Hcm, Hsub. split; [done|]. split; [done|].
    split; [done | by intros [? ?]].
  - destruct Hsc as [x ->]. split; [done|]. split; [done|].
    split; [done | by intros _].
Qed.

Lemma reachable_reviews_coherent_witness :
  is_Some (Review.assignedAt Sample.review_done)
  ∧ (Review.status Sample.review_done = pending
     ↔ Review.scores Sample.review_done = None)
  ∧ (Review.status Sample.review_done = pending →
     Review.comment Sample.review_done = None)
  ∧ (Review.status Sample.review_done = done
     ↔ is_Some (Review.submittedAt Sample.review_done)).
Proof.
  apply (reachable_reviews_coherent Sample.reviewed Sample.review_done).
  - apply Sample_reviewed_reachable.
  - apply list_elem_of_In. vm_compute. left. reflexivity.
Defined.

(** In every reachable state the submissions have pairwise different
    ids, so looking a submission up by its id finds that submission, and
    its assignment is found too. *)
Theorem reachable_submission_lookup st s :
  reachable st → s ∈ submissions st →
  NoDup (Submission.id <$> submissions st)
  ∧ findSubmission (Submission.id s) (submissions st) = Some s
  ∧ is_Some (findAssignment (Submission.assignmentId s) (assignments st)).
Proof.
  intros [[[_ Hasg] _] (_ & _ & _ & Hids)]%reachable_shaped Hs.
  split_and!; [done | | by apply Hasg].
  apply list_elem_of_lookup in Hs as [i Hi]. unfold findSubmission.
  by rewrite (find_by_distinct_key Submission.id _ i s Hids Hi).
Qed.

Lemma reachable_submission_lookup_witness :
  NoDup (Submission.id <$> submissions Sample.reviewed)
  ∧ findSubmission (Submission.id Sample.work) (submissions Sample.reviewed)
    = Some Sample.work
  ∧ is_Some (findAssignment (Submission.assignmentId Sample.work)
               (assignments Sample.reviewed)).
Proof.
  apply (reachable_submission_lookup Sample.reviewed Sample.work).
  - apply Sample_reviewed_reachable.
  - apply list_elem_of_In. simpl. left. reflexivity.
Defined.

(** After a submission is created in a reachable state under an unused
    id, its progress reads 0 done of min(2, size of the eligible pool),
    and the counters of every other submission are as before. *)
Theorem createSubmission_progress users s draws uids clock st st' :
  reachable st →
  Submission.id s ∉ Submission.id <$> submissions st →
  createSubmission users s draws uids clock st = Returns st' →
  reviewsTotal (Submission.id s) (reviews st')
  = Nat.min 2 (length (eligible users s))
  ∧ reviewsDone (Submission.id s) (reviews st') = 0
  ∧ (∀ sid, sid ≠ Submission.id s →
       reviewsTotal sid (reviews st') = reviewsTotal sid (reviews st)
       ∧ reviewsDone sid (reviews st') = reviewsDone sid (reviews st)).
Proof.
  intros Hreach Hfresh Hcs.
  destruct (reachable_shaped st Hreach) as [[[Hsub _] _] (Htwo & _)].
  pose proof Hcs as (chosen & Hch & ->)%createSubmission_Returns.
  assert (length chosen = Nat.min 2 (length (eligible users s))) as Hlen.
  { rewrite (chooseReviewers_length _ _ _ _ _ Hch).
    assert (reviewersNeeded (assignments st) s = 2%Z) as ->; [|unfold target; lia].
    unfold reviewersNeeded, findAssignment.
    destruct (list_find _ (assignments st)) as [[i a]|] eqn:Hf; [|done].
    apply list_find_Some in Hf as (Hi & _). simpl.
    by rewrite (Htwo a) by by eapply list_elem_of_lookup_2. }
  unfold reviewsTotal, reviewsDone. simpl. split_and!.
  - rewrite filter_app, length_app.
    rewrite (filter_none _ (reviews st)).
    + rewrite filter_all.
      * simpl. unfold placeholders. by rewrite length_imap.
      * intros r Hr. by apply placeholders_shape in Hr as (_ & ? & _).
    + intros r Hr Heq. apply Hfresh. rewrite <- Heq. by apply Hsub.
  - rewrite filter_app, length_app.
    rewrite (filter_none _ (reviews st)), filter_none; [done | |].
    + intros r Hr [_ Hd]. apply placeholders_shape in Hr as (? & _).
      congruence.
    + intros r Hr [Heq _]. apply Hfresh. rewrite <- Heq. by apply Hsub.
  - intros sid Hne. split.
    + rewrite filter_app, length_app, (filter_none _ (placeholders _ _ _ _));
        [simpl; lia|].
      intros r Hr Heq. apply placeholders_shape in Hr as (_ & ? & _).
      congruence.
    + rewrite filter_app, length_app, (filter_none _ (placeholders _ _ _ _));
        [simpl; lia|].
      intros r Hr [Heq _]. apply placeholders_shape in Hr as (_ & ? & _).
      congruence.
Qed.

Lemma createSubmission_progress_witness :
  let again := newSubmission "sub_2" Sample.essay
                 (User.mk "s2" "Student Ravi" student "ravi@example.com")
                 "second essay" 400%Z in
  let st' := mkState [Sample.essay] [Sample.work; again]
               (reviews Sample.reviewed
                ++ [Review.placeholder "ra_0" "sub_2" "s1" 200%Z;
                    Review.placeholder "ra_1" "sub_2" "s3" 200%Z]) in
  reviewsTotal (Submission.id again) (reviews st')
  = Nat.min 2 (length (eligible Sample.users again))
  ∧ reviewsDone (Submission.id again) (reviews st') = 0
  ∧ (∀ sid, sid ≠ Submission.id again →
       reviewsTotal sid (reviews st') = reviewsTotal sid (reviews Sample.reviewed)
       ∧ reviewsDone sid (reviews st') = reviewsDone sid (reviews Sample.reviewed)).
Proof.
  apply (createSubmission_progress Sample.users
           (newSubmission "sub_2" Sample.essay
              (User.mk "s2" "Student Ravi" student "ravi@example.com")
              "second essay" 400%Z)
           [0; 1] Sample.uids Sample.clock Sample.reviewed).
  - apply Sample_reviewed_reachable.
  - simpl. intros H. apply list_elem_of_In in H. simpl in H.
    destruct H as [H | []]. discriminate H.
  - vm_compute. reflexivity.
Defined.

(** ** The lists a user is shown *)

(** In every reachable state the reviews listed under "Assigned Reviews"
    for a user are never reviews of a submission listed under that user's
    "My Submissions"; with nobody logged in both lists are empty. *)
Theorem views_never_show_own_work st user r s :
  reachable st →
  (r ∈ myAssignedReviews user (reviews st) →
   s ∈ mySubmissions user (submissions st) →
   Submission.id s ≠ Review.submissionId r)
  ∧ myAssignedReviews None (reviews st) = []
  ∧ mySubmissions None (submissions st) = [].
Proof.
  intros (_ & Hself & _)%reachable_invariant. split_and!.
  - unfold myAssignedReviews, mySubmissions.
    intros [Hr Hrin]%list_elem_of_filter [Hs Hsin]%list_elem_of_filter Hid.
    apply (Hself r s Hrin Hsin Hid). congruence.
  - unfold myAssignedReviews. by apply filter_none.
  - unfold mySubmissions. by apply filter_none.
Qed.

Lemma Sample_second_reachable : reachable Sample.second.
Proof.
  unfold reachable. eapply rtc_r; [apply Sample_reviewed_reachable|].
  apply (step_createSubmission Sample.reviewed Sample.users Sample.essay
           Sample.ravi "sub_2" "second essay" 400%Z [0; 1] Sample.uids
           Sample.clock Sample.second).
  - apply list_elem_of_In. simpl. left. reflexivity.
  - simpl. intros H. apply list_elem_of_In in H. simpl in H.
    destruct H as [H | []]. discriminate H.
  - vm_compute. reflexivity.
Qed.

Lemma views_never_show_own_work_witness :
  Review.placeholder "ra_0" "sub_2" "s1" 200%Z
    ∈ myAssignedReviews (Some Sample.rohini) (reviews Sample.second)
  ∧ Sample.work ∈ mySubmissions (Some Sample.rohini) (submissions Sample.second)
  ∧ Submission.id Sample.work
    ≠ Review.submissionId (Review.placeholder "ra_0" "sub_2" "s1" 200%Z)
  ∧ myAssignedReviews None (reviews Sample.second) = []
  ∧ mySubmissions None (submissions Sample.second) = [].
Proof.
  destruct (views_never_show_own_work Sample.second (Some Sample.rohini)
              (Review.placeholder "ra_0" "sub_2" "s1" 200%Z) Sample.work
              Sample_second_reachable) as (Hmain & Hnobody & Hnothing).
  assert (Review.placeholder "ra_0" "sub_2" "s1" 200%Z
            ∈ myAssignedReviews (Some Sample.rohini) (reviews Sample.second))
    as Hr.
  { apply list_elem_of_In. vm_compute. left. reflexivity. }
  assert (Sample.work
            ∈ mySubmissions (Some Sample.rohini) (submissions Sample.second))
    as Hs.
  { apply list_elem_of_In. vm_compute. left. reflexivity. }
  split; [exact Hr|]. split; [exact Hs|].
  split; [exact (Hmain Hr Hs)|]. split; [exact Hnobody | exact Hnothing].
Defined.

(** What the students are shown once both have submitted: each has a
    submission of their own and a review of the other's to write. *)
Example views_run_second :
  myAssignedReviews (Some Sample.rohini) (reviews Sample.second)
  = [Review.placeholder "ra_0" "sub_2" "s1" 200%Z]
  ∧ mySubmissions (Some Sample.rohini) (submissions Sample.second)
    = [Sample.work]
  ∧ myAssignedReviews (Some Sample.ravi) (reviews Sample.second)
    = [Review.placeholder "ra_1" "sub_1" "s2" 200%Z]
  ∧ mySubmissions (Some Sample.ravi) (submissions Sample.second)
    = [Sample.again].
Proof. vm_compute. done. Qed.

(** What the two students of the sample session are shown. *)
Example views_run :
  myAssignedReviews
    (Some (User.mk "s2" "Student Ravi" student "ravi@example.com"))
    (reviews Sample.reviewed)
  = [Review.placeholder "ra_1" "sub_1" "s2" 200%Z]
  ∧ mySubmissions
      (Some (User.mk "s1" "Student Rohini" student "rohini@example.com"))
      (submissions Sample.reviewed)
    = [Sample.work]
  ∧ reviewsDone "sub_1" (reviews Sample.reviewed) = 1
  ∧ reviewsTotal "sub_1" (reviews Sample.reviewed) = 2.
Proof. vm_compute. done. Qed.
